(** * OpenSearch query receiver: query execution and result flattening

    A shallow embedding of the Go package [opensearchqueryreceiver]
    (configuration and factory defaults, OpenSearch client, scraper,
    receiver, and the substring helper of the configuration tests)
    together with the properties of its specification and further
    properties of the code.

    Conventions.
    - Go [int], [int64] and [time.Duration] values are [Z]; the only
      arithmetic that can wrap (negating a [Duration]) has its wrap-around
      written out.
    - A [float64] is a [spec_float] of the binary64 format.
    - An [error] is its message; [None] is Go's [nil] error.
    - The Go maps that are only read (decoded responses) are association
      lists whose order is the order in which [range] visits the entries;
      every statement is quantified over that order.  The label map of a
      query and the attribute map of a data point are [gmap]s.  The query
      body, which the time window wraps by reference, lives in a store of
      map objects. *)

From Stdlib Require Import ZArith Lia List Ascii String Decimal DecimalString.
From Stdlib Require Import Floats.SpecFloat.
From Stdlib Require DecimalZ DecimalPos.
From stdpp Require Import base option list gmap strings fin_maps.

Set Warnings "-register-all".
Local Open Scope string_scope.
Local Open Scope Z_scope.

(** ** Formatting verbs of package fmt *)

Module Fmt.

(** [%d] of an integer. *)
Definition itoa (z : Z) : string := NilZero.string_of_int (Z.to_int z).

Definition is_digit (c : ascii) : bool :=
  let n := nat_of_ascii c in (48 <=? n)%nat && (n <=? 57)%nat.

Fixpoint all_digits (s : string) : bool :=
  match s with
  | EmptyString => true
  | String c s' => is_digit c && all_digits s'
  end.

(** [strings.HasPrefix s p] and [strings.Contains s sub]. *)
Fixpoint has_prefix (p s : string) : bool :=
  match p, s with
  | EmptyString, _ => true
  | String a p', String b s' => Ascii.eqb a b && has_prefix p' s'
  | String _ _, EmptyString => false
  end.

Fixpoint contains (s sub : string) : bool :=
  has_prefix sub s ||
  match s with
  | EmptyString => false
  | String _ s' => contains s' sub
  end.

End Fmt.

(** ** float64 *)

Module Float64.

Definition prec : Z := 53.
Definition emax : Z := 1024.

Definition float64 : Type := spec_float.

(** The float64 nearest to [m * 2^e] (ties to even). *)
Definition of_dyadic (m e : Z) : float64 := binary_normalize prec emax m e false.

(** The conversion [float64(n)] of an integer. *)
Definition of_int (n : Z) : float64 := of_dyadic n 0.

(** The integer a float64 denotes, when it denotes one. *)
Definition to_int (f : float64) : option Z :=
  match f with
  | S754_zero _ => Some 0
  | S754_finite s m e =>
      let sign := if s then (-1) else 1 in
      if 0 <=? e then Some (sign * (Z.pos m * 2 ^ e))
      else if Z.pos m mod 2 ^ (- e) =? 0 then Some (sign * (Z.pos m / 2 ^ (- e)))
      else None
  | _ => None
  end.

(** Nearest integer to [m * 2^e], ties to even: the digits [%.0f] prints. *)
Definition round_half_even (m : positive) (e : Z) : Z :=
  if 0 <=? e then Z.pos m * 2 ^ e
  else
    let d := 2 ^ (- e) in
    let q := Z.pos m / d in
    let r := Z.pos m mod d in
    match Z.compare (2 * r) d with
    | Lt => q
    | Gt => q + 1
    | Eq => if Z.even q then q else q + 1
    end.

(** [fmt.Sprintf("%.0f", f)]. *)
Definition fmt_f0 (f : float64) : string :=
  match f with
  | S754_nan => "NaN"
  | S754_infinity s => if s then "-Inf" else "+Inf"
  | S754_zero s => (if s then "-" else "") ++ "0"
  | S754_finite s m e =>
      (if s then "-" else "") ++ Fmt.itoa (round_half_even m e)
  end.

End Float64.

Import Float64.

(** ** Go values *)

(** A decoded JSON document, as [encoding/json] stores it in an
    [interface{}]: [map[string]interface{}], [[]interface{}], [float64],
    [string], [bool] or [nil].  The entries of an object are listed in the
    order in which a [range] over the map visits them. *)
Inductive json : Type :=
| JNull
| JBool (b : bool)
| JNum (f : float64)
| JStr (s : string)
| JArr (xs : list json)
| JObj (entries : list (string * json)).

(** [m[k]] on a read-only map. *)
Fixpoint lookup_field (k : string) (m : list (string * json)) : option json :=
  match m with
  | [] => None
  | (k', v) :: m' => if String.eqb k' k then Some v else lookup_field k m'
  end.

(** [v, ok := m[k].(float64)] and [v, ok := m[k].(string)]. *)
Definition field_float64 (k : string) (m : list (string * json)) : option float64 :=
  match lookup_field k m with Some (JNum f) => Some f | _ => None end.

Definition field_string (k : string) (m : list (string * json)) : option string :=
  match lookup_field k m with Some (JStr s) => Some s | _ => None end.

Definition field_slice (k : string) (m : list (string * json)) : option (list json) :=
  match lookup_field k m with Some (JArr xs) => Some xs | _ => None end.

Fixpoint json_size (v : json) : nat :=
  match v with
  | JArr xs => S (list_sum (map json_size xs))
  | JObj entries => S (list_sum (map (fun kv => json_size (snd kv)) entries))
  | _ => 1%nat
  end.

(** Map objects that are shared by reference.  A value of static type
    [map[string]interface{}] is [nil] or the address of a map object. *)
Definition loc : Type := positive.
Definition mapref : Type := option loc.

Inductive gval : Type :=
| VNil
| VBool (b : bool)
| VNum (f : float64)
| VStr (s : string)
| VMap (r : mapref)
| VSlice (xs : list gval).

Abbreviation mapobj := (gmap string gval).
Abbreviation store := (gmap loc mapobj).

(** [len(m)]. *)
Definition map_len (h : store) (r : mapref) : nat :=
  match r with
  | None => 0%nat
  | Some l => match h !! l with Some o => size o | None => 0%nat end
  end.

(** The document a value denotes in a store, followed to depth [fuel]. *)
Fixpoint reify (fuel : nat) (h : store) (v : gval) : json :=
  match fuel with
  | O => JNull
  | S fuel' =>
      match v with
      | VNil => JNull
      | VBool b => JBool b
      | VNum f => JNum f
      | VStr s => JStr s
      | VMap None => JNull
      | VMap (Some l) =>
          match h !! l with
          | Some o => JObj (map (fun kv => (kv.1, reify fuel' h kv.2)) (map_to_list o))
          | None => JNull
          end
      | VSlice xs => JArr (map (reify fuel' h) xs)
      end
  end.

Definition error : Type := string.

(** ** The configuration: [Config], [QueryConfig], [Validate] *)

Module Config.

Definition Nanosecond : Z := 1.
Definition Second : Z := 1000000000 * Nanosecond.
Definition Minute : Z := 60 * Second.

Record QueryConfig : Type := {
  Name : string;
  Description : string;
  Query : mapref;
  MetricName : string;
  Labels : gmap string string
}.

Record Config : Type := {
  Endpoint : string;            (* ClientConfig.Endpoint *)
  Timeout : Z;                  (* ClientConfig.Timeout *)
  CollectionInterval : Z;
  InitialDelay : Z;
  Mode : string;
  Username : string;
  Password : string;
  ProxyEndpoint : string;
  Queries : list QueryConfig;
  IndexPattern : string;
  TimeField : string;
  LookbackPeriod : Z
}.

Definition set_TimeField (v : string) (c : Config) : Config :=
  {| Endpoint := Endpoint c; Timeout := Timeout c;
     CollectionInterval := CollectionInterval c; InitialDelay := InitialDelay c;
     Mode := Mode c; Username := Username c; Password := Password c;
     ProxyEndpoint := ProxyEndpoint c; Queries := Queries c;
     IndexPattern := IndexPattern c; TimeField := v;
     LookbackPeriod := LookbackPeriod c |}.

Definition set_LookbackPeriod (v : Z) (c : Config) : Config :=
  {| Endpoint := Endpoint c; Timeout := Timeout c;
     CollectionInterval := CollectionInterval c; InitialDelay := InitialDelay c;
     Mode := Mode c; Username := Username c; Password := Password c;
     ProxyEndpoint := ProxyEndpoint c; Queries := Queries c;
     IndexPattern := IndexPattern c; TimeField := TimeField c;
     LookbackPeriod := v |}.

(** The loop [for i, query := range cfg.Queries] of [Validate]: the first
    complaint, if any. *)
Fixpoint validateQueries (h : store) (i : nat) (qs : list QueryConfig) : option error :=
  match qs with
  | [] => None
  | query :: qs' =>
      if String.eqb (Name query) "" then
        Some ("query[" ++ Fmt.itoa (Z.of_nat i) ++ "]: name must be specified")
      else if match Query query with None => true | Some _ => false end
              || Nat.eqb (map_len h (Query query)) 0 then
        Some ("query[" ++ Fmt.itoa (Z.of_nat i) ++ "] (" ++ Name query
              ++ "): query body must be specified")
      else validateQueries h (S i) qs'
  end.

(** What the loop asks of a query, and its complaint about the query at
    index [i] that does not meet it. *)
Definition usable (h : store) (query : QueryConfig) : Prop :=
  Name query <> "" /\ Query query <> None /\ map_len h (Query query) <> 0%nat.

Definition complaint (i : nat) (query : QueryConfig) : error :=
  if String.eqb (Name query) ""
  then "query[" ++ Fmt.itoa (Z.of_nat i) ++ "]: name must be specified"
  else "query[" ++ Fmt.itoa (Z.of_nat i) ++ "] (" ++ Name query
         ++ "): query body must be specified".

(** [func (cfg *Config) Validate() error]: the configuration after the
    call and the error returned. *)
Definition Validate (h : store) (cfg : Config) : Config * option error :=
  if String.eqb (Mode cfg) "" then
    (cfg, Some "mode must be specified (direct or proxy)")
  else if negb (String.eqb (Mode cfg) "direct") && negb (String.eqb (Mode cfg) "proxy") then
    (cfg, Some ("invalid mode '" ++ Mode cfg ++ "': must be 'direct' or 'proxy'"))
  else if String.eqb (Mode cfg) "direct" && String.eqb (Endpoint cfg) "" then
    (cfg, Some "endpoint must be specified in direct mode")
  else if String.eqb (Mode cfg) "proxy" && String.eqb (ProxyEndpoint cfg) "" then
    (cfg, Some "proxy_endpoint must be specified in proxy mode")
  else if Nat.eqb (length (Queries cfg)) 0 then
    (cfg, Some "at least one query must be configured")
  else
    match validateQueries h 0 (Queries cfg) with
    | Some e => (cfg, Some e)
    | None =>
        if String.eqb (IndexPattern cfg) "" then
          (cfg, Some "index_pattern must be specified")
        else
          let cfg1 := if String.eqb (TimeField cfg) ""
                      then set_TimeField "@timestamp" cfg else cfg in
          let cfg2 := if LookbackPeriod cfg1 =? 0
                      then set_LookbackPeriod (5 * Minute) cfg1 else cfg1 in
          (cfg2, None)
    end.

(** The configuration [Validate] leaves behind when it accepts [cfg]. *)
Definition withDefaults (cfg : Config) : Config :=
  set_LookbackPeriod
    (if LookbackPeriod cfg =? 0 then 5 * Minute else LookbackPeriod cfg)
    (set_TimeField
       (if String.eqb (TimeField cfg) "" then "@timestamp" else TimeField cfg) cfg).

(** [GetEndpoint] and [UsesBasicAuth]. *)
Definition GetEndpoint (cfg : Config) : string :=
  if String.eqb (Mode cfg) "proxy" then ProxyEndpoint cfg else Endpoint cfg.

Definition UsesBasicAuth (cfg : Config) : bool :=
  String.eqb (Mode cfg) "direct"
  && negb (String.eqb (Username cfg) "") && negb (String.eqb (Password cfg) "").

(** factory.go, [createDefaultConfig]. *)
Definition createDefaultConfig : Config :=
  {| Endpoint := "";
     Timeout := 30 * Second;
     CollectionInterval := 60 * Second;
     InitialDelay := Second;
     Mode := "direct";
     Username := "";
     Password := "";
     ProxyEndpoint := "";
     Queries := [];
     IndexPattern := "";
     TimeField := "@timestamp";
     LookbackPeriod := 5 * Minute |}.

End Config.

(** ** Package time, as far as the client uses it *)

Module Time.

(** An instant with its [*Location]: the offset, in seconds east of UTC,
    that the location has in force at each instant (given in seconds since
    the epoch). *)
Record Time : Type := { unixNano : Z; location : Z -> Z }.

(** The offset in force at the instant itself, which [Format] looks up. *)
Definition zoneOffset (t : Time) : Z := location t (unixNano t / 1000000000).

(** Two's-complement wrap-around of [int64] arithmetic. *)
Definition wrap64 (z : Z) : Z := (z + 2 ^ 63) mod 2 ^ 64 - 2 ^ 63.

(** [-d] on a [Duration]. *)
Definition neg64 (d : Z) : Z := wrap64 (- d).

(** [t.Add(d)]: the location is kept, not the offset.  The range of
    [Time] exceeds that of [Duration] by many orders of magnitude, so the
    sum is exact. *)
Definition Add (t : Time) (d : Z) : Time :=
  {| unixNano := unixNano t + d; location := location t |}.

(** Year, month and day of the proleptic Gregorian calendar for a day
    number counted from 1970-01-01. *)
Definition civil (days : Z) : Z * Z * Z :=
  let z := days + 719468 in
  let era := z / 146097 in
  let doe := z mod 146097 in
  let yoe := (doe - doe / 1460 + doe / 36524 - doe / 146096) / 365 in
  let doy := doe - (365 * yoe + yoe / 4 - yoe / 100) in
  let mp := (5 * doy + 2) / 153 in
  let d := doy - (153 * mp + 2) / 5 + 1 in
  let m := if mp <? 10 then mp + 3 else mp - 9 in
  let y := yoe + era * 400 + (if m <=? 2 then 1 else 0) in
  (y, m, d).

Fixpoint zeros (n : nat) : string :=
  match n with O => "" | S n' => "0" ++ zeros n' end.

(** [appendInt(b, x, width)]: decimal, zero-padded to [width] digits. *)
Definition appendInt (x : Z) (width : nat) : string :=
  let digits := Fmt.itoa (Z.abs x) in
  (if x <? 0 then "-" else "")
    ++ zeros (width - String.length digits) ++ digits.

(** [t.Format(time.RFC3339)], layout ["2006-01-02T15:04:05Z07:00"]. *)
Definition formatRFC3339 (t : Time) : string :=
  let sec := unixNano t / 1000000000 + zoneOffset t in
  let '(y, m, d) := civil (sec / 86400) in
  let sod := sec mod 86400 in
  let zone := Z.quot (zoneOffset t) 60 in
  appendInt y 4 ++ "-" ++ appendInt m 2 ++ "-" ++ appendInt d 2 ++ "T"
    ++ appendInt (sod / 3600) 2 ++ ":" ++ appendInt (sod mod 3600 / 60) 2
    ++ ":" ++ appendInt (sod mod 60) 2
    ++ (if zoneOffset t =? 0 then "Z"
        else (if zone <? 0 then "-" else "+")
               ++ appendInt (Z.abs zone / 60) 2 ++ ":"
               ++ appendInt (Z.abs zone mod 60) 2).

End Time.

(** ** The outside world *)

Inductive result (A : Type) : Type :=
| Ok (a : A)
| Err (e : error).
Arguments Ok {A} a.
Arguments Err {A} e.

(** One call of the zap logger. *)
Record LogEntry : Type := {
  level : string;
  message : string;
  fields : list (string * string)
}.

(** The state a call runs in: the store of map objects, the log written so
    far, and the state [W] of whatever lies outside the process (clock,
    network). *)
Record World (W : Type) : Type := {
  heap : store;
  log : list LogEntry;
  ext : W
}.
Arguments heap {W} _.
Arguments log {W} _.
Arguments ext {W} _.

Definition IO (W A : Type) : Type := World W -> A * World W.

Definition ret {W A} (a : A) : IO W A := fun s => (a, s).

Definition bind {W A B} (m : IO W A) (k : A -> IO W B) : IO W B :=
  fun s => let '(a, s') := m s in k a s'.

Notation "'let*' x ':=' m 'in' k" := (bind m (fun x => k))
  (at level 10, x pattern, m at level 100, k at level 200).
Notation "m ';;;' k" := (bind m (fun _ => k))
  (at level 100, k at level 200, right associativity).

(** [logger.Debug/Info/Warn/Error(msg, fields...)]. *)
Definition logf {W} (lvl msg : string) (fs : list (string * string)) : IO W unit :=
  fun s => (tt, {| heap := heap s;
                   log := (log s ++ [{| level := lvl; message := msg; fields := fs |}])%list;
                   ext := ext s |}).

(** A map literal: a fresh map object, returned by reference. *)
Definition new_map {W} (o : mapobj) : IO W mapref :=
  fun s => let l := fresh (dom (heap s)) in
           (Some l, {| heap := <[l := o]> (heap s); log := log s; ext := ext s |}).

(** An effect of the outside world alone. *)
Definition outside {W A} (f : W -> A * W) : IO W A :=
  fun s => let '(a, w) := f (ext s) in
           (a, {| heap := heap s; log := log s; ext := w |}).

(** A state extends another when every map object of the store is still
    there, unchanged, and the log has only grown; a computation keeps the
    state when it always ends in an extension of the state it started
    in. *)
Definition extends {W} (s s' : World W) : Prop :=
  heap s ⊆ heap s' /\ log s `prefix_of` log s'.

Definition keeps {W A} (m : IO W A) : Prop := forall s, extends s (m s).2.

(** ** Package encoding/base64: the standard encoding *)

Module Base64.

Definition alphabet : string :=
  "ABCDEFGHIJKLMNOPQRSTUVWXYZabcdefghijklmnopqrstuvwxyz0123456789+/".

(** The character of a six-bit value. *)
Definition digit (n : N) : ascii :=
  match String.get (N.to_nat n) alphabet with
  | Some c => c
  | None => "="%char
  end.

(** [base64.StdEncoding.EncodeToString]: three bytes give four
    characters; a last group of one or two bytes is padded with [=]. *)
Fixpoint EncodeToString (src : string) : string :=
  match src with
  | EmptyString => EmptyString
  | String a EmptyString =>
      let n := (N_of_ascii a * 65536)%N in
      String (digit (n / 262144)) (String (digit (n / 4096 mod 64)) "==")
  | String a (String b EmptyString) =>
      let n := (N_of_ascii a * 65536 + N_of_ascii b * 256)%N in
      String (digit (n / 262144))
        (String (digit (n / 4096 mod 64)) (String (digit (n / 64 mod 64)) "="))
  | String a (String b (String c rest)) =>
      let n := (N_of_ascii a * 65536 + N_of_ascii b * 256 + N_of_ascii c)%N in
      String (digit (n / 262144))
        (String (digit (n / 4096 mod 64))
           (String (digit (n / 64 mod 64))
              (String (digit (n mod 64)) (EncodeToString rest))))
  end.

End Base64.

(** ** The OpenSearch client: [OpenSearchClient] *)

Module Client.
Import Config Time.

Record SearchRequest : Type := {
  req_Query : mapref;
  req_Size : Z;
  req_Aggs : mapref
}.

Record ShardInfo : Type := {
  Total : Z;
  Successful : Z;
  Skipped : Z;
  Failed : Z
}.

Record HitsTotal : Type := {
  Value : Z;           (* int64 *)
  Relation : string
}.

Record Hit : Type := {
  hit_Index : string;
  hit_ID : string;
  hit_Score : option float64;
  hit_Source : option (list (string * json))
}.

Record HitsInfo : Type := {
  HitsTotal_ : HitsTotal;          (* Hits.Total *)
  MaxScore : option float64;
  HitList : list Hit               (* Hits.Hits *)
}.

Record SearchResponse : Type := {
  Took : Z;
  TimedOut : bool;
  Shards : ShardInfo;
  Hits : HitsInfo;
  Aggregations : option (list (string * json))
}.

(** An outgoing [*http.Request] and what comes back from [Do] followed
    by [io.ReadAll] of the body.  The header maps a canonical key to the
    one value [Set] gives it. *)
Record Request : Type := {
  Method : string;
  URL : string;
  Body : string;
  Header : gmap string string
}.

Record Response : Type := {
  StatusCode : Z;
  ReadAll : string * option error    (* the bytes read, and why reading stopped *)
}.

Definition StatusOK : Z := 200.

(** What the client takes from its libraries and from the network. *)
Record Env (W : Type) : Type := {
  time_Now : W -> Time * W;
  json_Marshal : store -> SearchRequest -> result string;
  http_NewRequest : string -> string -> option error;   (* method, url *)
  http_Do : Request -> W -> result Response * W;
  json_Unmarshal : string -> result SearchResponse
}.
Arguments time_Now {W} _.
Arguments json_Marshal {W} _.
Arguments http_NewRequest {W} _.
Arguments http_Do {W} _.
Arguments json_Unmarshal {W} _.

Section ClientOps.
Context {W : Type} (E : Env W) (config : Config).

(** [addTimeRangeFilter]: each map literal of the body is a new map
    object (the bounds, the per-field map, the range filter, the bool
    clauses, the wrapper).  [query] is stored by reference in the [must]
    slice. *)
Definition addTimeRangeFilter (query : mapref) : IO W mapref :=
  let* now := outside (time_Now E) in
  let startTime := Add now (neg64 (LookbackPeriod config)) in
  let* bounds := new_map {[ "gte" := VStr (formatRFC3339 startTime);
                            "lte" := VStr (formatRFC3339 now) ]} in
  let* byField := new_map {[ TimeField config := VMap bounds ]} in
  let* timeFilter := new_map {[ "range" := VMap byField ]} in
  let* clauses := new_map {[ "must" := VSlice [VMap query];
                             "filter" := VSlice [VMap timeFilter] ]} in
  let* wrappedQuery := new_map {[ "bool" := VMap clauses ]} in
  ret wrappedQuery.

(** [req.Header.Set(k, v)], for a key in canonical form. *)
Definition SetHeader (k v : string) (r : Request) : Request :=
  {| Method := Method r; URL := URL r; Body := Body r;
     Header := <[k := v]> (Header r) |}.

(** [req.SetBasicAuth(u, p)]: the header [Authorization] is set to
    ["Basic "] followed by the base64 encoding of [u:p]. *)
Definition basicAuth (u p : string) : string :=
  Base64.EncodeToString (u ++ ":" ++ p).

Definition SetBasicAuth (u p : string) (r : Request) : Request :=
  SetHeader "Authorization" ("Basic " ++ basicAuth u p) r.

(** [ExecuteQuery], up to [c.httpClient.Do(req)]: the request, ready to
    be sent. *)
Definition buildRequest (query : QueryConfig) : IO W (result Request) :=
  let* wrapped := addTimeRangeFilter (Query query) in
  let searchReq := {| req_Query := wrapped; req_Size := 10000; req_Aggs := None |} in
  fun s =>
  match json_Marshal E (heap s) searchReq with
  | Err e => (Err ("failed to marshal query: " ++ e), s)
  | Ok reqBody =>
    (logf "debug" "Executing OpenSearch query"
          [("query_name", Name query); ("index_pattern", IndexPattern config);
           ("request_body", reqBody)] ;;;
     let url := GetEndpoint config ++ "/" ++ IndexPattern config ++ "/_search" in
     match http_NewRequest E "POST" url with
     | Some e => ret (Err ("failed to create request: " ++ e))
     | None =>
       let req0 := {| Method := "POST"; URL := url; Body := reqBody;
                      Header := ∅ |} in
       let req1 := SetHeader "Content-Type" "application/json" req0 in
       if UsesBasicAuth config
       then logf "debug" "Using basic authentication" [] ;;;
            ret (Ok (SetBasicAuth (Username config) (Password config) req1))
       else logf "debug" "No authentication configured" [] ;;; ret (Ok req1)
     end) s
  end.

(** [ExecuteQuery], from [io.ReadAll(resp.Body)] on: from the response to
    the result. *)
Definition readResponse (query : QueryConfig) (resp : Response)
    : IO W (result SearchResponse) :=
  match ReadAll resp with
  | (_, Some e) => ret (Err ("failed to read response: " ++ e))
  | (body, None) =>
    if negb (StatusCode resp =? StatusOK) then
      ret (Err ("unexpected status code " ++ Fmt.itoa (StatusCode resp) ++ ": " ++ body))
    else
      match json_Unmarshal E body with
      | Err e => ret (Err ("failed to unmarshal response: " ++ e))
      | Ok searchResp =>
        logf "debug" "Query executed successfully"
             [("query_name", Name query);
              ("total_hits", Fmt.itoa (Value (HitsTotal_ (Hits searchResp))));
              ("returned_hits", Fmt.itoa (Z.of_nat (length (HitList (Hits searchResp)))));
              ("took_ms", Fmt.itoa (Took searchResp))] ;;;
        ret (Ok searchResp)
      end
  end.

(** [ExecuteQuery]. *)
Definition ExecuteQuery (query : QueryConfig) : IO W (result SearchResponse) :=
  let* built := buildRequest query in
  match built with
  | Err e => ret (Err e)
  | Ok req =>
    let* answer := outside (http_Do E req) in
    match answer with
    | Err e => ret (Err ("failed to execute request: " ++ e))
    | Ok resp => readResponse query resp
    end
  end.

(** [Ping]. *)
Definition Ping : IO W (option error) :=
  let url := GetEndpoint config ++ "/_cluster/health" in
  match http_NewRequest E "GET" url with
  | Some e => ret (Some ("failed to create ping request: " ++ e))
  | None =>
    let req0 := {| Method := "GET"; URL := url; Body := "";
                   Header := ∅ |} in
    let req := if UsesBasicAuth config
               then SetBasicAuth (Username config) (Password config) req0
               else req0 in
    let* answer := outside (http_Do E req) in
    match answer with
    | Err e => ret (Some ("failed to ping OpenSearch: " ++ e))
    | Ok resp =>
      if negb (StatusCode resp =? StatusOK) then
        let body := (ReadAll resp).1 in    (* [body, _ := io.ReadAll(resp.Body)] *)
        ret (Some ("ping failed with status " ++ Fmt.itoa (StatusCode resp)
                   ++ ": " ++ body))
      else
        logf "info" "Successfully connected to OpenSearch"
             [("mode", Mode config); ("endpoint", GetEndpoint config)] ;;;
        ret None
    end
  end.

End ClientOps.

(** [NewOpenSearchClient]: an HTTP client with the configured timeout and
    a transport with the TLS settings of the configuration.  [T] is the
    type of a loaded [*tls.Config]; loading it is the one step that can
    fail. *)
Record OpenSearchClient (T : Type) : Type := {
  client_config : Config;
  httpClient_Timeout : Z;
  httpClient_TLSClientConfig : T
}.
Arguments client_config {T} _.
Arguments httpClient_Timeout {T} _.
Arguments httpClient_TLSClientConfig {T} _.

Definition NewOpenSearchClient {T : Type} (LoadTLSConfig : Config -> result T)
    (cfg : Config) : result (OpenSearchClient T) :=
  match LoadTLSConfig cfg with
  | Err e => Err ("failed to load TLS config: " ++ e)
  | Ok tlsConfig =>
      Ok {| client_config := cfg;
            httpClient_Timeout := Timeout cfg;
            httpClient_TLSClientConfig := tlsConfig |}
  end.

End Client.

(** ** The scraper: scraper.go *)

Module Scraper.
Import Config Time Client.

(** One gauge metric with its single data point, as appended to the
    scope's metric slice. *)
Record Metric : Type := {
  metric_Name : string;
  metric_Description : string;
  metric_Unit : string;
  dp_Timestamp : Z;
  dp_Value : float64;
  dp_Attributes : gmap string string
}.

Definition ScopeMetrics : Type := list Metric.

(** A recording step is framed when it only appends to the metric slice,
    and what it appends does not depend on what is already there. *)
Definition framed (f : ScopeMetrics -> ScopeMetrics) : Prop :=
  forall sm, f sm = (sm ++ f [])%list.

Record Metrics : Type := {
  resource_Attributes : gmap string string;
  scope_Name : string;
  scope_Metrics : ScopeMetrics
}.

Definition typeStr : string := "opensearchquery".

(** [attrs.PutStr(k, v)]. *)
Definition PutStr (k v : string) (attrs : gmap string string) : gmap string string :=
  <[k := v]> attrs.

(** [for k, v := range queryConfig.Labels { attrs.PutStr(k, v) }]. *)
Definition putLabels (labels attrs : gmap string string) : gmap string string :=
  map_fold PutStr attrs labels.

(** [for k, v := range m] over a decoded object, and
    [for i, x := range xs] over a decoded array. *)
Section Range.
Context {S : Type}.

Section OverMap.
Variable body : string -> json -> S -> S.
Fixpoint range_map (m : list (string * json)) (s : S) : S :=
  match m with
  | [] => s
  | (k, v) :: m' => range_map m' (body k v s)
  end.
End OverMap.

Section OverSlice.
Variable body : nat -> json -> S -> S.
Fixpoint range_slice (i : nat) (xs : list json) (s : S) : S :=
  match xs with
  | [] => s
  | x :: xs' => range_slice (Datatypes.S i) xs' (body i x s)
  end.
End OverSlice.

(** [if xs, ok := m[k].([]interface{}); ok { then_ xs } else { else_ }]. *)
Section IfSlice.
Variable then_ : list json -> S.
Variable else_ : S.
Fixpoint if_slice (k : string) (m : list (string * json)) : S :=
  match m with
  | [] => else_
  | (k', v) :: m' =>
      if String.eqb k' k
      then match v with JArr xs => then_ xs | _ => else_ end
      else if_slice k m'
  end.
End IfSlice.
End Range.

(** Lines 295-303 of [processBuckets]: the key of the bucket at index [i]. *)
Definition bucketKey (i : nat) (bucketMap : list (string * json)) : string :=
  match field_string "key" bucketMap with
  | Some keyVal => keyVal
  | None =>
      match field_float64 "key" bucketMap with
      | Some keyVal => fmt_f0 keyVal
      | None => "bucket_" ++ Fmt.itoa (Z.of_nat i)
      end
  end.

Definition nestedField (nestedAggName : string) : bool :=
  negb (String.eqb nestedAggName "key")
  && negb (String.eqb nestedAggName "doc_count")
  && negb (String.eqb nestedAggName "key_as_string").

Section Recording.
Variable queryConfig : QueryConfig.
Variable timestamp : Z.

(** The metric [recordGaugeMetric] appends: the attributes are written in
    the order [query.name], [query.description], then the labels. *)
Definition gaugeMetric (name description unit : string) (value : float64) : Metric :=
  let attrs0 := PutStr "query.name" (Name queryConfig) ∅ in
  let attrs1 := if negb (String.eqb (Description queryConfig) "")
                then PutStr "query.description" (Description queryConfig) attrs0
                else attrs0 in
  {| metric_Name := name;
     metric_Description := description;
     metric_Unit := unit;
     dp_Timestamp := timestamp;
     dp_Value := value;
     dp_Attributes := putLabels (Labels queryConfig) attrs1 |}.

(** [recordGaugeMetric]. *)
Definition recordGaugeMetric (name description unit : string) (value : float64)
    (sm : ScopeMetrics) : ScopeMetrics :=
  (sm ++ [gaugeMetric name description unit value])%list.

(** The metric [processBuckets] builds itself for a bucket's [doc_count]:
    the attributes are written in the order [query.name], [bucket.key],
    [aggregation], then the labels. *)
Definition bucketDocCountMetric (baseMetricName aggName key : string)
    (docCount : float64) : Metric :=
  let attrs := PutStr "aggregation" aggName
                 (PutStr "bucket.key" key
                    (PutStr "query.name" (Name queryConfig) ∅)) in
  {| metric_Name := baseMetricName ++ ".agg." ++ aggName ++ ".bucket.doc_count";
     metric_Description := "Bucket document count for " ++ aggName;
     metric_Unit := "documents";
     dp_Timestamp := timestamp;
     dp_Value := docCount;
     dp_Attributes := putLabels (Labels queryConfig) attrs |}.

Definition recordBucketDocCount (baseMetricName aggName key : string)
    (docCount : float64) (sm : ScopeMetrics) : ScopeMetrics :=
  (sm ++ [bucketDocCountMetric baseMetricName aggName key docCount])%list.

(** [processBuckets], open in the function it calls on the nested
    aggregations. *)
Section Buckets.
Variable processAggregation : string -> string -> json -> ScopeMetrics -> ScopeMetrics.

Definition processBucket (baseMetricName aggName : string) (i : nat) (bucket : json)
    (sm : ScopeMetrics) : ScopeMetrics :=
  match bucket with
  | JObj bucketMap =>
      let key := bucketKey i bucketMap in
      let sm1 := match field_float64 "doc_count" bucketMap with
                 | Some docCount =>
                     recordBucketDocCount baseMetricName aggName key docCount sm
                 | None => sm
                 end in
      range_map
        (fun nestedAggName nestedAggValue sm' =>
           if nestedField nestedAggName then
             let nestedBaseMetric := baseMetricName ++ "." ++ key in
             processAggregation nestedBaseMetric nestedAggName nestedAggValue sm'
           else sm')
        bucketMap sm1
  | _ => sm
  end.

Definition processBucketsWith (baseMetricName aggName : string) (buckets : list json)
    (sm : ScopeMetrics) : ScopeMetrics :=
  range_slice (processBucket baseMetricName aggName) 0 buckets sm.
End Buckets.

(** [processAggregation]. *)
Fixpoint processAggregation (baseMetricName aggName : string) (aggValue : json)
    (sm : ScopeMetrics) {struct aggValue} : ScopeMetrics :=
  match aggValue with
  | JObj aggMap =>
      let sm1 := match field_float64 "value" aggMap with
                 | Some value =>
                     recordGaugeMetric (baseMetricName ++ ".agg." ++ aggName)
                       ("Aggregation result for " ++ aggName) "" value sm
                 | None => sm
                 end in
      let sm2 := match field_float64 "doc_count" aggMap with
                 | Some docCount =>
                     recordGaugeMetric (baseMetricName ++ ".agg." ++ aggName ++ ".doc_count")
                       ("Document count for " ++ aggName) "documents" docCount sm1
                 | None => sm1
                 end in
      if_slice
        (fun buckets =>
           processBucketsWith processAggregation baseMetricName aggName buckets sm2)
        sm2 "buckets" aggMap
  | _ => sm
  end.

(** [processBuckets]. *)
Definition processBuckets : string -> string -> list json -> ScopeMetrics -> ScopeMetrics :=
  processBucketsWith processAggregation.

(** [processAggregations]. *)
Definition processAggregations (baseMetricName : string)
    (aggregations : list (string * json)) (sm : ScopeMetrics) : ScopeMetrics :=
  range_map (fun aggName aggValue sm' =>
               processAggregation baseMetricName aggName aggValue sm')
            aggregations sm.

End Recording.

(** [pcommon.NewTimestampFromTime]: nanoseconds since the epoch as a
    [uint64]. *)
Definition NewTimestampFromTime (t : Time) : Z := unixNano t mod 2 ^ 64.

(** [executeAndRecordQuery], lines 113-175: what a response adds to the
    metric slice. *)
Definition recordResponse (queryConfig : QueryConfig) (timestamp : Z)
    (resp : SearchResponse) (sm : ScopeMetrics) : ScopeMetrics :=
  let metricName := if String.eqb (MetricName queryConfig) ""
                    then "opensearch.query." ++ Name queryConfig
                    else MetricName queryConfig in
  let sm1 := recordGaugeMetric queryConfig timestamp
               (metricName ++ ".count")
               "Number of documents matching the query" "hits"
               (of_int (Value (HitsTotal_ (Hits resp)))) sm in
  let sm2 := recordGaugeMetric queryConfig timestamp
               (metricName ++ ".took_ms")
               "Query execution time in milliseconds" "ms"
               (of_int (Took resp)) sm1 in
  let sm3 := recordGaugeMetric queryConfig timestamp
               (metricName ++ ".shards.total")
               "Total number of shards queried" "shards"
               (of_int (Total (Shards resp))) sm2 in
  let sm4 := recordGaugeMetric queryConfig timestamp
               (metricName ++ ".shards.successful")
               "Number of successful shards" "shards"
               (of_int (Successful (Shards resp))) sm3 in
  let sm5 := recordGaugeMetric queryConfig timestamp
               (metricName ++ ".shards.failed")
               "Number of failed shards" "shards"
               (of_int (Failed (Shards resp))) sm4 in
  match Aggregations resp with
  | Some aggregations =>
      if (0 <? length aggregations)%nat
      then processAggregations queryConfig timestamp metricName aggregations sm5
      else sm5
  | None => sm5
  end.

(** The metrics one attempted query contributes to the batch. *)
Definition contribution (timestamp : Z) (met : QueryConfig * result SearchResponse)
    : ScopeMetrics :=
  match met.2 with
  | Ok resp => recordResponse met.1 timestamp resp []
  | Err _ => []
  end.

Section ScraperOps.
Context {W : Type} (E : Env W) (config : Config).

(** [executeAndRecordQuery]: the error returned and the metric slice
    after the call. *)
Definition executeAndRecordQuery (queryConfig : QueryConfig) (sm : ScopeMetrics)
    (timestamp : Z) : IO W (option error * ScopeMetrics) :=
  let* answer := ExecuteQuery E config queryConfig in
  match answer with
  | Err err => ret (Some ("query execution failed: " ++ err), sm)
  | Ok resp =>
    let sm' := recordResponse queryConfig timestamp resp sm in
    logf "debug" "Query metrics recorded"
         [("query_name", Name queryConfig);
          ("hit_count", Fmt.itoa (Value (HitsTotal_ (Hits resp))));
          ("took_ms", Fmt.itoa (Took resp))] ;;;
    ret (None, sm')
  end.

(** The loop [for _, queryConfig := range s.config.Queries] of [scrape]. *)
Fixpoint scrapeQueries (now : Z) (queries : list QueryConfig) (sm : ScopeMetrics)
    : IO W ScopeMetrics :=
  match queries with
  | [] => ret sm
  | queryConfig :: rest =>
    let* (err, sm') := executeAndRecordQuery queryConfig sm now in
    match err with
    | Some e =>
        logf "error" "Failed to execute query"
             [("query_name", Name queryConfig); ("error", e)] ;;;
        scrapeQueries now rest sm'
    | None => scrapeQueries now rest sm'
    end
  end.

(** [scrape]. *)
Definition scrape : IO W (Metrics * option error) :=
  let* t := outside (time_Now E) in
  let now := NewTimestampFromTime t in
  let resourceAttrs :=
    PutStr "opensearch.mode" (Mode config)
      (PutStr "opensearch.index_pattern" (IndexPattern config)
         (PutStr "opensearch.endpoint" (GetEndpoint config)
            (PutStr "receiver" typeStr ∅))) in
  let* sm := scrapeQueries now (Queries config) [] in
  ret ({| resource_Attributes := resourceAttrs;
          scope_Name := typeStr;
          scope_Metrics := sm |}, None).

(** What one query of a cycle meets: the result of its [ExecuteQuery], and
    the state once the loop has dealt with it (the entry "Query metrics
    recorded", or the entry "Failed to execute query" of [scrape]). *)
Definition attempt (queryConfig : QueryConfig) (s : World W)
    : result SearchResponse * World W :=
  let '(answer, s1) := ExecuteQuery E config queryConfig s in
  match answer with
  | Ok resp =>
      (answer,
       (logf "debug" "Query metrics recorded"
             [("query_name", Name queryConfig);
              ("hit_count", Fmt.itoa (Value (HitsTotal_ (Hits resp))));
              ("took_ms", Fmt.itoa (Took resp))] s1).2)
  | Err e =>
      (answer,
       (logf "error" "Failed to execute query"
             [("query_name", Name queryConfig);
              ("error", "query execution failed: " ++ e)] s1).2)
  end.

(** The queries of a cycle with what each met, in configured order. *)
Fixpoint attempts (queries : list QueryConfig) (s : World W)
    : list (QueryConfig * result SearchResponse) * World W :=
  match queries with
  | [] => ([], s)
  | queryConfig :: rest =>
      let '(answer, s1) := attempt queryConfig s in
      let '(others, s2) := attempts rest s1 in
      ((queryConfig, answer) :: others, s2)
  end.

(** [start]: a failed ping is logged and startup goes on. *)
Definition start : IO W (option error) :=
  logf "info" "Starting OpenSearch Query Receiver"
       [("mode", Mode config); ("endpoint", GetEndpoint config);
        ("index_pattern", IndexPattern config);
        ("num_queries", Fmt.itoa (Z.of_nat (length (Queries config))))] ;;;
  let* err := Ping E config in
  match err with
  | Some e => logf "warn" "Failed to ping OpenSearch on startup" [("error", e)] ;;;
              ret None
  | None => ret None
  end.

End ScraperOps.

(** [shutdown]. *)
Definition shutdown {W : Type} : IO W (option error) :=
  logf "info" "Shutting down OpenSearch Query Receiver" [] ;;; ret None.

(** [newScraperInstance]: [cfg] is a pointer, so what [Validate] writes
    is seen by the caller whether or not a scraper comes back; the
    configuration after the call is returned with the result. *)
Record scraper (T : Type) : Type := {
  scraper_config : Config;
  scraper_client : OpenSearchClient T
}.
Arguments scraper_config {T} _.
Arguments scraper_client {T} _.

Definition newScraperInstance {T : Type} (LoadTLSConfig : Config -> result T)
    (h : store) (cfg : Config) : Config * result (scraper T) :=
  let '(cfg', invalid) := Validate h cfg in
  match invalid with
  | Some e => (cfg', Err ("invalid configuration: " ++ e))
  | None =>
      match NewOpenSearchClient LoadTLSConfig cfg' with
      | Err e => (cfg', Err ("failed to create client: " ++ e))
      | Ok client => (cfg', Ok {| scraper_config := cfg'; scraper_client := client |})
      end
  end.

End Scraper.

(** ** The receiver: [metricsReceiver] *)

Module Receiver.
Import Config Client Scraper.

Section Collect.
Context {W : Type} (E : Env W) (config : Config).
(** [consumer.ConsumeMetrics]. *)
Variable ConsumeMetrics : Metrics -> W -> option error * W.

(** [collect]: one scrape cycle handed to the consumer. *)
Definition collect : IO W unit :=
  let* (metrics, err) := scrape E config in
  match err with
  | Some e => logf "error" "Failed to scrape metrics" [("error", e)]
  | None =>
      let* cerr := outside (ConsumeMetrics metrics) in
      match cerr with
      | Some e => logf "error" "Failed to consume metrics" [("error", e)]
      | None => ret tt
      end
  end.
End Collect.

(** *** The collection loop

    [collectionLoop] runs in its own goroutine and communicates through
    three channels.  [ctx.Done()] is closed by [cancel] and stays
    readable; the channel of [time.After] receives one value when the
    delay has elapsed; [ticker.C] has a buffer of one value, and a tick
    that finds the buffer full is dropped.  A [select] blocks until one
    of its cases can proceed and, when several can, takes any one of
    them.  [time.NewTicker] panics on a non-positive interval. *)

Inductive Point : Type :=
| AtDelaySelect      (* blocked in the select of the initial delay *)
| AtTickSelect       (* blocked in the select of the for loop *)
| Returned
| Panicked.

Inductive Event : Type :=
(* what the rest of the system does *)
| Cancel             (* the context is cancelled *)
| DelayElapsed       (* the timer of time.After fires *)
| TickerFires        (* the ticker sends on ticker.C *)
(* what the loop does: the case its select takes *)
| RecvDone
| RecvAfter
| RecvTick.

Section Loop.
Context {St : Type}.
(** The effect of one call [r.collect(ctx)]. *)
Variable collect : St -> St.
Variable config : Config.

Record Sys : Type := {
  point : Point;
  done : bool;           (* ctx.Done() is closed *)
  afterReady : bool;     (* a value waits in the channel of time.After *)
  tickReady : bool;      (* a value waits in ticker.C *)
  app : St
}.

(** From [ticker := time.NewTicker(...)] to the first [select] of the
    for loop. *)
Definition enterLoop (s : Sys) : Sys :=
  if CollectionInterval config <=? 0 then
    {| point := Panicked; done := done s; afterReady := afterReady s;
       tickReady := false; app := app s |}
  else
    {| point := AtTickSelect; done := done s; afterReady := afterReady s;
       tickReady := false; app := collect (app s) |}.

(** [go r.collectionLoop(ctx)] up to its first blocking point. *)
Definition collectionLoop (a : St) : Sys :=
  let s0 := {| point := AtDelaySelect; done := false; afterReady := false;
               tickReady := false; app := a |} in
  if 0 <? InitialDelay config then s0 else enterLoop s0.

Definition step (s : Sys) (ev : Event) : option Sys :=
  match ev with
  | Cancel =>
      Some {| point := point s; done := true; afterReady := afterReady s;
              tickReady := tickReady s; app := app s |}
  | DelayElapsed =>
      match point s with
      | AtDelaySelect =>
          Some {| point := point s; done := done s; afterReady := true;
                  tickReady := tickReady s; app := app s |}
      | _ => None
      end
  | TickerFires =>
      match point s with
      | AtTickSelect =>
          Some {| point := point s; done := done s; afterReady := afterReady s;
                  tickReady := true; app := app s |}
      | _ => None
      end
  | RecvDone =>
      match point s with
      | AtDelaySelect | AtTickSelect =>
          if done s
          then Some {| point := Returned; done := done s; afterReady := afterReady s;
                       tickReady := false; app := app s |}
          else None
      | _ => None
      end
  | RecvAfter =>
      match point s with
      | AtDelaySelect =>
          if afterReady s
          then Some (enterLoop {| point := point s; done := done s;
                                  afterReady := false; tickReady := tickReady s;
                                  app := app s |})
          else None
      | _ => None
      end
  | RecvTick =>
      match point s with
      | AtTickSelect =>
          if tickReady s
          then Some {| point := AtTickSelect; done := done s;
                       afterReady := afterReady s; tickReady := false;
                       app := collect (app s) |}
          else None
      | _ => None
      end
  end.

(** An execution: the events in the order they happen. *)
Fixpoint run (s : Sys) (tr : list Event) : option Sys :=
  match tr with
  | [] => Some s
  | ev :: tr' =>
      match step s ev with
      | Some s' => run s' tr'
      | None => None
      end
  end.

(** The number of values the loop has received from [ticker.C]. *)
Fixpoint ticksReceived (tr : list Event) : nat :=
  match tr with
  | [] => 0%nat
  | RecvTick :: tr' => S (ticksReceived tr')
  | _ :: tr' => ticksReceived tr'
  end.

Fixpoint afterReceived (tr : list Event) : bool :=
  match tr with
  | [] => false
  | RecvAfter :: _ => true
  | _ :: tr' => afterReceived tr'
  end.

Fixpoint doneReceived (tr : list Event) : bool :=
  match tr with
  | [] => false
  | RecvDone :: _ => true
  | _ :: tr' => doneReceived tr'
  end.

(** The number of ticks the ticker has fired, and whether the context has
    been cancelled. *)
Fixpoint ticksFired (tr : list Event) : nat :=
  match tr with
  | [] => 0%nat
  | TickerFires :: tr' => S (ticksFired tr')
  | _ :: tr' => ticksFired tr'
  end.

Fixpoint cancelled (tr : list Event) : bool :=
  match tr with
  | [] => false
  | Cancel :: _ => true
  | _ :: tr' => cancelled tr'
  end.

(** The number of cycles an execution has started: none if the ticker
    cannot be created; otherwise the first one, once the initial delay is
    behind (at once if there is none), and one per tick received. *)
Definition cyclesStarted (tr : list Event) : nat :=
  if CollectionInterval config <=? 0 then 0%nat
  else Nat.add (if (InitialDelay config <=? 0) || afterReceived tr then 1%nat else 0%nat)
               (ticksReceived tr).

(** What holds of the state an execution from [collectionLoop a] has reached. *)
Definition reached (a : St) (tr : list Event) (s : Sys) : Prop :=
  app s = Nat.iter (cyclesStarted tr) collect a
  /\ match point s with
     | AtDelaySelect =>
         0 < InitialDelay config /\ afterReceived tr = false
         /\ ticksReceived tr = 0%nat /\ doneReceived tr = false
     | AtTickSelect =>
         0 < CollectionInterval config
         /\ (InitialDelay config <=? 0) || afterReceived tr = true
         /\ doneReceived tr = false
     | Panicked =>
         CollectionInterval config <= 0 /\ ticksReceived tr = 0%nat
         /\ doneReceived tr = false
     | Returned => doneReceived tr = true
     end.

(** What the channels hold, in terms of what has happened. *)
Definition channels (tr : list Event) (s : Sys) : Prop :=
  (ticksReceived tr + (if tickReady s then 1 else 0) <= ticksFired tr)%nat
  /\ done s = cancelled tr
  /\ (ticksFired tr <> 0%nat ->
      0 < CollectionInterval config
      /\ (InitialDelay config <=? 0) || afterReceived tr = true).

End Loop.

(** *** Start and Shutdown

    Before [Start] the receiver has no loop and [r.cancel] is nil.
    [Start] spawns the loop on the state the receiver shares with it;
    [Shutdown] signals the cancellation if there is a loop. *)
Section Lifecycle.
Context {W : Type} (E : Env W) (config : Config).
Variable ConsumeMetrics : Metrics -> W -> option error * W.

(** One cycle of the loop: a call of [collect]. *)
Definition cycle (s : World W) : World W := (collect E config ConsumeMetrics s).2.

Inductive metricsReceiver : Type :=
| Idle (s : World W)
| Started (sys : @Sys (World W)).

(** A step of the process outside the loop, on the state they share. *)
Definition onWorld (f : World W -> World W) (sys : @Sys (World W)) : @Sys (World W) :=
  {| point := point sys; done := done sys; afterReady := afterReady sys;
     tickReady := tickReady sys; app := f (app sys) |}.

(** [r.cancel()]. *)
Definition cancel (sys : @Sys (World W)) : @Sys (World W) :=
  {| point := point sys; done := true; afterReady := afterReady sys;
     tickReady := tickReady sys; app := app sys |}.

(** [Start], on a receiver that has not been started. *)
Definition Start (s : World W) : option error * metricsReceiver :=
  let '(err, s1) := (logf "info" "Starting OpenSearch Query Receiver" [] ;;;
                     start E config) s in
  match err with
  | Some e => (Some e, Idle s1)
  | None => (None, Started (collectionLoop cycle config s1))
  end.

(** [Shutdown]. *)
Definition Shutdown (r : metricsReceiver) : option error * metricsReceiver :=
  let announce := fun s : World W =>
    (logf "info" "Shutting down OpenSearch Query Receiver" [] s).2 in
  match r with
  | Idle s =>
      let '(err, s') := shutdown (announce s) in (err, Idle s')
  | Started sys =>
      let sys1 := cancel (onWorld announce sys) in
      ((shutdown (app sys1)).1, Started (onWorld (fun s => (shutdown s).2) sys1))
  end.

End Lifecycle.

End Receiver.

(** ** The helpers of the configuration tests: [contains] *)

Module ConfigTest.

Definition len (s : string) : Z := Z.of_nat (String.length s).

(** [s[i:j]]: a run-time panic (here [None]) unless [0 <= i <= j <= len(s)]. *)
Definition slice (s : string) (i j : Z) : option string :=
  if (0 <=? i) && (i <=? j) && (j <=? len s)
  then Some (String.substring (Z.to_nat i) (Z.to_nat (j - i)) s)
  else None.

(** The loop [for i := 0; i <= len(s)-len(substr); i++] of
    [containsHelper], from index [i], with [fuel] tests of its condition
    left; [None] is a panic or a loop that has not finished. *)
Fixpoint containsLoop (s substr : string) (i : Z) (fuel : nat) : option bool :=
  match fuel with
  | O => None
  | S fuel' =>
      if i <=? len s - len substr then
        match slice s i (i + len substr) with
        | None => None
        | Some piece =>
            if String.eqb piece substr then Some true
            else containsLoop s substr (i + 1) fuel'
        end
      else Some false
  end.

(** [containsHelper]. *)
Definition containsHelper (s substr : string) : option bool :=
  containsLoop s substr 0 (String.length s + 2).

(** [contains], with the short-circuit evaluation of [&&] and [||]. *)
Definition contains (s substr : string) : option bool :=
  if len s <? len substr then Some false
  else if String.eqb s substr then Some true
  else if len substr =? 0 then Some true
  else if (0 <? len s) && (0 <? len substr) then containsHelper s substr
  else Some false.

(** A piece of [s] equal to [substr] starts at index [j]. *)
Definition occurs_at (s substr : string) (j : Z) : Prop :=
  0 <= j <= len s - len substr
  /\ String.substring (Z.to_nat j) (String.length substr) s = substr.

End ConfigTest.

(** * Sample inputs *)

Module Sample.
Import Config Time Client Scraper.

(** The bucket of the specification's example: key ["ERROR"], ten
    documents, an average latency of 120.5. *)
Definition levelsBucket : list (string * json) :=
  [("key", JStr "ERROR");
   ("doc_count", JNum (of_int 10));
   ("avg_latency", JObj [("value", JNum (of_dyadic 241 (-1)))])].

(** [aggregations.levels.buckets = [bucket]]. *)
Definition levelsAggregations (bucket : list (string * json)) : list (string * json) :=
  [("levels", JObj [("buckets", JArr [JObj bucket])])].

(** A query whose body [{"match_all": {}}] sits at address 1 of the store
    and is empty at address 2. *)
Definition bodies : store :=
  {[ 1%positive := {[ "match_all" := VMap (Some 2%positive) ]};
     2%positive := ∅ ]}.

Definition errorCount : QueryConfig :=
  {| Name := "error_count";
     Description := "Count of error logs";
     Query := Some 1%positive;
     MetricName := "logs.errors";
     Labels := {[ "severity" := "error" ]} |}.

(** A query whose own labels use the name [aggregation]. *)
Definition hourly : QueryConfig :=
  {| Name := "hourly";
     Description := "";
     Query := Some 1%positive;
     MetricName := "p";
     Labels := {[ "aggregation" := "hourly" ]} |}.

(** The configuration of [TestConfigDefaults]. *)
Definition direct : Config :=
  {| Endpoint := "https://localhost:9200";
     Timeout := 0;
     CollectionInterval := 0;
     InitialDelay := 0;
     Mode := "direct";
     Username := "";
     Password := "";
     ProxyEndpoint := "";
     Queries := [errorCount];
     IndexPattern := "logs-*";
     TimeField := "";
     LookbackPeriod := 0 |}.

(** A scripted outside world.  Its state is the list of answers the
    network will give, in order; the clock stands still; every request can
    be marshalled and built; a body decodes only if it is one of the names
    below. *)
Definition Net : Type := list (result Response).

Definition clock : Time :=
  {| unixNano := 1700000000 * 10 ^ 9 + 700000000; location := fun _ => 0 |}.

(** Europe/Berlin around the end of summer time in 2026 (01:00 UTC on 25
    October), and a reading of the clock at noon of that day. *)
Definition berlin (sec : Z) : Z := if sec <? 1792890000 then 7200 else 3600.

Definition noon : Time := {| unixNano := 1792926000 * 10 ^ 9; location := berlin |}.

(** The response of [TestExecuteQuery], with the example's aggregations. *)
Definition hundredHits : SearchResponse :=
  {| Took := 42;
     TimedOut := false;
     Shards := {| Total := 5; Successful := 5; Skipped := 0; Failed := 0 |};
     Hits := {| HitsTotal_ := {| Value := 100; Relation := "eq" |};
                MaxScore := None;
                HitList := [] |};
     Aggregations := Some (levelsAggregations levelsBucket) |}.

(** A response that reports 2^53 + 1 matching documents. *)
Definition manyHits : SearchResponse :=
  {| Took := 42;
     TimedOut := false;
     Shards := {| Total := 5; Successful := 5; Skipped := 0; Failed := 0 |};
     Hits := {| HitsTotal_ := {| Value := 2 ^ 53 + 1; Relation := "eq" |};
                MaxScore := None;
                HitList := [] |};
     Aggregations := None |}.

Definition decode (body : string) : result SearchResponse :=
  if String.eqb body "hundred" then Ok hundredHits
  else if String.eqb body "many" then Ok manyHits
  else Err "invalid character".

Definition scripted : Env Net :=
  {| time_Now := fun w => (clock, w);
     json_Marshal := fun _ _ => Ok "{}";
     http_NewRequest := fun _ _ => None;
     http_Do := fun _ w =>
       match w with
       | [] => (Err "connection refused", [])
       | answer :: w' => (answer, w')
       end;
     json_Unmarshal := decode |}.

Definition answered (status : Z) (body : string) : result Response :=
  Ok {| StatusCode := status; ReadAll := (body, None) |}.

Definition world (answers : Net) : World Net :=
  {| heap := bodies; log := []; ext := answers |}.

(** A valid configuration whose lookback period is minus five minutes. *)
Definition lookingAhead : Config :=
  {| Endpoint := "https://localhost:9200";
     Timeout := 0;
     CollectionInterval := 60 * Second;
     InitialDelay := 0;
     Mode := "direct";
     Username := "";
     Password := "";
     ProxyEndpoint := "";
     Queries := [errorCount];
     IndexPattern := "logs-*";
     TimeField := "@timestamp";
     LookbackPeriod := - (5 * Minute) |}.

(** A valid configuration whose lookback period is 200 milliseconds. *)
Definition glancing : Config :=
  {| Endpoint := "https://localhost:9200";
     Timeout := 0;
     CollectionInterval := 60 * Second;
     InitialDelay := 0;
     Mode := "direct";
     Username := "";
     Password := "";
     ProxyEndpoint := "";
     Queries := [errorCount];
     IndexPattern := "logs-*";
     TimeField := "@timestamp";
     LookbackPeriod := 200000000 |}.

(** Three queries, the second of which will be refused. *)
Definition threeQueries : Config :=
  {| Endpoint := "https://localhost:9200";
     Timeout := 30 * Second;
     CollectionInterval := 60 * Second;
     InitialDelay := 0;
     Mode := "direct";
     Username := "admin";
     Password := "admin";
     ProxyEndpoint := "";
     Queries := [errorCount; hourly; errorCount];
     IndexPattern := "logs-*";
     TimeField := "@timestamp";
     LookbackPeriod := 5 * Minute |}.

(** [direct] after [Validate]. *)
Definition validated : Config := (Validate bodies direct).1.

End Sample.

(** * Properties *)

Import Config Time Client Scraper Receiver Sample.

(** ** Configuration *)

Lemma set_TimeField_same (c : Config) : set_TimeField (TimeField c) c = c.
Proof. by destruct c. Qed.

Lemma set_LookbackPeriod_same (c : Config) : set_LookbackPeriod (LookbackPeriod c) c = c.
Proof. by destruct c. Qed.

(** C10.  [Validate] leaves the configuration as it was whenever it returns
    an error.  Whenever it returns no error, the configuration differs from
    the one it was given at most in [TimeField], which is ["@timestamp"] if
    it was empty, and in [LookbackPeriod], which is five minutes if it was
    zero; so afterwards [TimeField] is not empty and [LookbackPeriod] is not
    zero. *)
Theorem Validate_atomic_then_defaults (h : store) (cfg : Config) :
  match Validate h cfg with
  | (cfg', Some _) => cfg' = cfg
  | (cfg', None) =>
      cfg' = withDefaults cfg
      /\ TimeField cfg' <> ""
      /\ LookbackPeriod cfg' <> 0
  end.
Proof.
  unfold Validate, withDefaults.
  repeat (match goal with
          | |- context [if ?b then (_, Some _) else _] => destruct b; [reflexivity|]
          end).
  destruct (validateQueries h 0 (Queries cfg)); [reflexivity|].
  destruct (String.eqb (IndexPattern cfg) ""); [reflexivity|].
  destruct (String.eqb_spec (TimeField cfg) "") as [Htf|Htf];
    destruct cfg as [ep to ci idl mo us pw pe qs ip tf lb]; simpl in *;
    destruct (Z.eqb_spec lb 0) as [Hlb|Hlb]; simpl; subst;
    repeat split; try discriminate; try (intros; congruence); try lia; auto.
Qed.

(** ** The aggregation walk *)

Section Walk.
Variable queryConfig : QueryConfig.
Variable timestamp : Z.

Local Open Scope list_scope.

Lemma framed_id : framed (fun sm => sm).
Proof. intros sm. by rewrite app_nil_r. Qed.

Lemma framed_compose f g : framed f -> framed g -> framed (fun sm => g (f sm)).
Proof.
  intros Hf Hg sm. rewrite (Hg (f sm)), (Hg (f [])), (Hf sm). by rewrite app_assoc.
Qed.

Lemma compose_emits f g : framed f -> framed g -> g (f []) = f [] ++ g [].
Proof. intros Hf Hg. by rewrite (Hg (f [])). Qed.

Lemma recordGaugeMetric_framed name description unit value :
  framed (recordGaugeMetric queryConfig timestamp name description unit value).
Proof. intros sm. reflexivity. Qed.

Lemma recordBucketDocCount_framed base aggName key docCount :
  framed (recordBucketDocCount queryConfig timestamp base aggName key docCount).
Proof. intros sm. reflexivity. Qed.

Lemma if_slice_spec {S : Type} (then_ : list json -> S) (else_ : S) k m :
  if_slice then_ else_ k m =
  match field_slice k m with Some xs => then_ xs | None => else_ end.
Proof.
  unfold field_slice. induction m as [|[k' v] m IH]; simpl; [done|].
  destruct (String.eqb k' k); [by destruct v | exact IH].
Qed.

Lemma range_map_emits (body : string -> json -> ScopeMetrics -> ScopeMetrics) m :
  (forall k v, In (k, v) m -> framed (body k v)) ->
  forall sm, range_map body m sm = sm ++ flat_map (fun kv => body kv.1 kv.2 []) m.
Proof.
  induction m as [|[k v] m IH]; intros Hb sm; simpl.
  - by rewrite app_nil_r.
  - rewrite IH by (intros; apply Hb; by right).
    rewrite (Hb k v (or_introl eq_refl) sm). by rewrite app_assoc.
Qed.

Lemma range_slice_emits (body : nat -> json -> ScopeMetrics -> ScopeMetrics) xs :
  (forall i x, In x xs -> framed (body i x)) ->
  forall i sm,
    range_slice body i xs sm = sm ++ concat (imap (fun j x => body (i + j)%nat x []) xs).
Proof.
  induction xs as [|x xs IH]; intros Hb i sm; simpl.
  - by rewrite app_nil_r.
  - rewrite IH by (intros; apply Hb; by right).
    rewrite (Hb i x (or_introl eq_refl) sm), Nat.add_0_r, <- app_assoc.
    do 3 f_equal. apply imap_ext. intros j y _. simpl. f_equal. lia.
Qed.

(** The equations of the walk. *)
Lemma processAggregation_object base aggName aggMap sm :
  processAggregation queryConfig timestamp base aggName (JObj aggMap) sm =
  let sm1 := match field_float64 "value" aggMap with
             | Some value =>
                 recordGaugeMetric queryConfig timestamp (base ++ ".agg." ++ aggName)
                   ("Aggregation result for " ++ aggName) "" value sm
             | None => sm
             end in
  let sm2 := match field_float64 "doc_count" aggMap with
             | Some docCount =>
                 recordGaugeMetric queryConfig timestamp
                   (base ++ ".agg." ++ aggName ++ ".doc_count")
                   ("Document count for " ++ aggName) "documents" docCount sm1
             | None => sm1
             end in
  match field_slice "buckets" aggMap with
  | Some buckets => processBuckets queryConfig timestamp base aggName buckets sm2
  | None => sm2
  end.
Proof. cbn [processAggregation]. by rewrite if_slice_spec. Qed.

Lemma processAggregation_other base aggName v sm :
  (forall aggMap, v <> JObj aggMap) ->
  processAggregation queryConfig timestamp base aggName v sm = sm.
Proof. intros Hv. destruct v as [| | | | |m]; try reflexivity. by destruct (Hv m). Qed.

Lemma json_size_elem x xs : In x xs -> (json_size x < json_size (JArr xs))%nat.
Proof.
  simpl. induction xs as [|y xs IH]; intros Hin; [done|].
  destruct Hin as [->|Hin]; simpl; [lia|]. specialize (IH Hin). lia.
Qed.

Lemma json_size_entry k v m : In (k, v) m -> (json_size v < json_size (JObj m))%nat.
Proof.
  simpl. induction m as [|[k' v'] m IH]; intros Hin; [done|].
  destruct Hin as [[= -> ->]|Hin]; simpl; [lia|]. specialize (IH Hin). lia.
Qed.

Lemma lookup_field_In k m v : lookup_field k m = Some v -> In (k, v) m.
Proof.
  induction m as [|[k' v'] m IH]; simpl; [done|].
  destruct (String.eqb_spec k' k) as [->|_]; [intros [= ->]; by left|].
  intros H. right. by apply IH.
Qed.

Lemma field_slice_size k m xs x :
  field_slice k m = Some xs -> In x xs -> (json_size x < json_size (JObj m))%nat.
Proof.
  unfold field_slice. destruct (lookup_field k m) as [[]|] eqn:Hl; try done.
  intros [= ->] Hin. apply lookup_field_In, json_size_entry in Hl.
  pose proof (json_size_elem x xs Hin). lia.
Qed.

(** Every call of the walk only appends. *)
Lemma processBucket_framed (rec : string -> string -> json -> ScopeMetrics -> ScopeMetrics)
    base aggName i bucket :
  (forall b n k v m, bucket = JObj m -> In (k, v) m -> framed (rec b n v)) ->
  framed (processBucket queryConfig timestamp rec base aggName i bucket).
Proof.
  intros Hrec. destruct bucket as [| | | | |m]; try apply framed_id.
  intros sm. unfold processBucket.
  set (body := fun nestedAggName nestedAggValue sm' => _).
  assert (Hbody : forall k v, In (k, v) m -> framed (body k v)).
  { intros k v Hin. unfold body. destruct (nestedField k); [|apply framed_id].
    by eapply Hrec. }
  rewrite !(range_map_emits body m Hbody).
  destruct (field_float64 "doc_count" m); [|done].
  by rewrite recordBucketDocCount_framed, <- !app_assoc.
Qed.

Lemma processAggregation_framed v :
  forall base aggName, framed (processAggregation queryConfig timestamp base aggName v).
Proof.
  remember (json_size v) as n eqn:Hn. revert v Hn.
  induction (lt_wf n) as [n _ IH]. intros v -> base aggName.
  destruct v as [| | | | |aggMap]; try apply framed_id.
  intros sm. rewrite !processAggregation_object. cbn zeta.
  set (f1 := fun sm0 : ScopeMetrics =>
               match field_float64 "value" aggMap with
               | Some value =>
                   recordGaugeMetric queryConfig timestamp (base ++ ".agg." ++ aggName)%string
                     ("Aggregation result for " ++ aggName)%string "" value sm0
               | None => sm0
               end).
  set (f2 := fun sm0 : ScopeMetrics =>
               match field_float64 "doc_count" aggMap with
               | Some docCount =>
                   recordGaugeMetric queryConfig timestamp
                     (base ++ ".agg." ++ aggName ++ ".doc_count")%string
                     ("Document count for " ++ aggName)%string "documents" docCount sm0
               | None => sm0
               end).
  set (f3 := fun sm0 : ScopeMetrics =>
               match field_slice "buckets" aggMap with
               | Some buckets => processBuckets queryConfig timestamp base aggName buckets sm0
               | None => sm0
               end).
  change (f3 (f2 (f1 sm)) = sm ++ f3 (f2 (f1 []))).
  assert (H1 : framed f1).
  { unfold f1. destruct (field_float64 "value" aggMap);
      [apply recordGaugeMetric_framed | apply framed_id]. }
  assert (H2 : framed f2).
  { unfold f2. destruct (field_float64 "doc_count" aggMap);
      [apply recordGaugeMetric_framed | apply framed_id]. }
  assert (H3 : framed f3).
  { unfold f3. destruct (field_slice "buckets" aggMap) as [buckets|] eqn:Hb;
      [|apply framed_id].
    intros sm0. unfold processBuckets, processBucketsWith.
    assert (Hbody : forall i x, In x buckets ->
              framed (processBucket queryConfig timestamp
                        (processAggregation queryConfig timestamp) base aggName i x)).
    { intros i x Hx. apply processBucket_framed. intros b n' k v m -> Hkv.
      eapply IH; [|reflexivity].
      pose proof (field_slice_size _ _ _ _ Hb Hx).
      pose proof (json_size_entry _ _ _ Hkv). lia. }
    rewrite !(range_slice_emits _ buckets Hbody). by rewrite app_nil_l. }
  exact (framed_compose _ _ (framed_compose _ _ H1 H2) H3 sm).
Qed.

(** What the walk appends, read off the code. *)
Lemma processAggregations_emits base aggregations sm :
  processAggregations queryConfig timestamp base aggregations sm =
  sm ++ flat_map (fun kv => processAggregation queryConfig timestamp base kv.1 kv.2 [])
          aggregations.
Proof.
  unfold processAggregations. apply range_map_emits.
  intros k v _. apply processAggregation_framed.
Qed.

Lemma processBucket_emits base aggName i bucketMap sm :
  processBucket queryConfig timestamp (processAggregation queryConfig timestamp)
    base aggName i (JObj bucketMap) sm =
  sm ++ match field_float64 "doc_count" bucketMap with
        | Some docCount =>
            recordBucketDocCount queryConfig timestamp base aggName
              (bucketKey i bucketMap) docCount []
        | None => []
        end
     ++ flat_map (fun kv =>
                    if nestedField kv.1
                    then processAggregation queryConfig timestamp
                           (base ++ "." ++ bucketKey i bucketMap)%string kv.1 kv.2 []
                    else [])
          bucketMap.
Proof.
  unfold processBucket.
  set (body := fun nestedAggName nestedAggValue sm' => _).
  assert (Hbody : forall k v, In (k, v) bucketMap -> framed (body k v)).
  { intros k v _. unfold body. destruct (nestedField k);
      [apply processAggregation_framed | apply framed_id]. }
  rewrite (range_map_emits body bucketMap Hbody).
  destruct (field_float64 "doc_count" bucketMap);
    [rewrite recordBucketDocCount_framed|]; rewrite <- ?app_assoc; simpl;
    do 2 f_equal; apply flat_map_ext; intros [k v]; unfold body; simpl;
    by destruct (nestedField k).
Qed.

Lemma processBuckets_emits base aggName buckets sm :
  processBuckets queryConfig timestamp base aggName buckets sm =
  sm ++ concat (imap (fun i bucket =>
                        processBucket queryConfig timestamp
                          (processAggregation queryConfig timestamp)
                          base aggName i bucket [])
                  buckets).
Proof.
  unfold processBuckets, processBucketsWith.
  rewrite range_slice_emits; [done|].
  intros i x _. apply processBucket_framed. intros. apply processAggregation_framed.
Qed.

(** A node and its buckets, by cases. *)
Lemma processAggregation_emits base aggName aggMap sm :
  processAggregation queryConfig timestamp base aggName (JObj aggMap) sm =
  sm ++ match field_float64 "value" aggMap with
        | Some value =>
            [gaugeMetric queryConfig timestamp (base ++ ".agg." ++ aggName)%string
               ("Aggregation result for " ++ aggName)%string "" value]
        | None => []
        end
     ++ match field_float64 "doc_count" aggMap with
        | Some docCount =>
            [gaugeMetric queryConfig timestamp
               (base ++ ".agg." ++ aggName ++ ".doc_count")%string
               ("Document count for " ++ aggName)%string "documents" docCount]
        | None => []
        end
     ++ match field_slice "buckets" aggMap with
        | Some buckets => processBuckets queryConfig timestamp base aggName buckets []
        | None => []
        end.
Proof.
  rewrite processAggregation_object. cbn zeta. unfold recordGaugeMetric.
  destruct (field_slice "buckets" aggMap) as [buckets|].
  - rewrite processBuckets_emits, (processBuckets_emits _ _ _ []).
    destruct (field_float64 "value" aggMap), (field_float64 "doc_count" aggMap);
      simpl; rewrite <- ?app_assoc; simpl; by rewrite ?app_nil_r.
  - destruct (field_float64 "value" aggMap), (field_float64 "doc_count" aggMap);
      simpl; rewrite <- ?app_assoc; simpl; by rewrite ?app_nil_r.
Qed.

Lemma Forall_concat_imap {A B} (P : B -> Prop) (f : nat -> A -> list B) l :
  (forall i x, In x l -> Forall P (f i x)) -> Forall P (concat (imap f l)).
Proof.
  revert f. induction l as [|x l IH]; intros f Hf; simpl; [constructor|].
  apply Forall_app_2; [apply Hf; by left|].
  apply IH. intros i y Hy. apply Hf. by right.
Qed.

(** A property of the two kinds of metric the walk builds holds of every
    metric the walk adds. *)
Lemma processAggregation_Forall (P : Metric -> Prop) :
  (forall name description unit value,
     P (gaugeMetric queryConfig timestamp name description unit value)) ->
  (forall base aggName key docCount,
     P (bucketDocCountMetric queryConfig timestamp base aggName key docCount)) ->
  forall v base aggName,
    Forall P (processAggregation queryConfig timestamp base aggName v []).
Proof.
  intros Hgauge Hbucket v.
  remember (json_size v) as n eqn:Hn. revert v Hn.
  induction (lt_wf n) as [n _ IH]. intros v -> base aggName.
  destruct v as [| | | | |aggMap]; try by constructor.
  rewrite processAggregation_emits. rewrite app_nil_l.
  repeat apply Forall_app_2.
  - destruct (field_float64 "value" aggMap); repeat constructor. apply Hgauge.
  - destruct (field_float64 "doc_count" aggMap); repeat constructor. apply Hgauge.
  - destruct (field_slice "buckets" aggMap) as [buckets|] eqn:Hb; [|constructor].
    rewrite processBuckets_emits, app_nil_l. apply Forall_concat_imap.
    intros i bucket Hin. destruct bucket as [| | | | |bucketMap]; try by constructor.
    rewrite processBucket_emits, app_nil_l. apply Forall_app_2.
    + destruct (field_float64 "doc_count" bucketMap); repeat constructor. apply Hbucket.
    + apply List.Forall_flat_map, List.Forall_forall. intros [k v] Hkv. simpl.
      destruct (nestedField k); [|constructor].
      eapply IH; [|reflexivity].
      pose proof (field_slice_size _ _ _ _ Hb Hin).
      pose proof (json_size_entry _ _ _ Hkv). lia.
Qed.

End Walk.

(** ** Strings *)

Lemma append_assoc (a b c : string) : (a ++ b) ++ c = a ++ (b ++ c).
Proof.
  induction a as [|x a IH]; [reflexivity|].
  change (String x ((a ++ b) ++ c) = String x (a ++ (b ++ c))). by f_equal.
Qed.

Lemma uint_digits d : Fmt.all_digits (NilEmpty.string_of_uint d) = true.
Proof. induction d; simpl; try done. Qed.

Lemma itoa_digits z : 0 <= z -> Fmt.all_digits (Fmt.itoa z) = true.
Proof.
  intros Hz. unfold Fmt.itoa. destruct z as [|q|q]; [reflexivity| |lia].
  simpl. unfold NilZero.string_of_uint.
  destruct (Pos.to_uint q) eqn:Hq; try (rewrite <- Hq; apply uint_digits); reflexivity.
Qed.

(** ** float64 *)

Lemma round_half_even_nonneg m e : 0 <= round_half_even m e.
Proof.
  unfold round_half_even. destruct (0 <=? e) eqn:He; [apply Z.leb_le in He; nia|].
  apply Z.leb_gt in He. assert (0 < 2 ^ (- e)) by (apply Z.pow_pos_nonneg; lia).
  assert (0 <= Z.pos m / 2 ^ (- e)) by (apply Z.div_pos; lia).
  destruct (_ ?= _); [destruct (Z.even _)| |]; lia.
Qed.

(** [round_half_even m e] is an integer nearest to [m * 2^e]. *)
Lemma round_half_even_nearest m e :
  let d := 2 ^ Z.max 0 (- e) in
  2 * Z.abs (round_half_even m e * d - Z.pos m * 2 ^ Z.max 0 e) <= d.
Proof.
  unfold round_half_even. destruct (0 <=? e) eqn:He.
  - apply Z.leb_le in He. rewrite Z.max_l, Z.max_r by lia. simpl. lia.
  - apply Z.leb_gt in He. rewrite Z.max_r, Z.max_l by lia. cbn zeta.
    set (d := 2 ^ (- e)). assert (Hd : 0 < d) by (apply Z.pow_pos_nonneg; lia).
    pose proof (Z.div_mod (Z.pos m) d ltac:(lia)) as Hdm.
    pose proof (Z.mod_pos_bound (Z.pos m) d Hd) as Hr.
    change (2 ^ 0) with 1.
    destruct (Z.compare_spec (2 * (Z.pos m mod d)) d); [destruct (Z.even _)| |]; nia.
Qed.

Lemma iter_xO_value p k : Z.pos (Pos.iter xO p k) = Z.pos p * 2 ^ Z.pos k.
Proof.
  induction k as [|k IH] using Pos.peano_ind.
  - simpl. lia.
  - rewrite Pos.iter_succ, Pos2Z.inj_succ, Z.pow_succ_r by lia.
    rewrite Pos2Z.inj_xO, IH. lia.
Qed.

Lemma iter_xO_digits p k : digits2_pos (Pos.iter xO p k) = (digits2_pos p + k)%positive.
Proof.
  induction k as [|k IH] using Pos.peano_ind.
  - simpl. lia.
  - rewrite Pos.iter_succ. simpl. rewrite IH. lia.
Qed.

Lemma digits2_pos_bound p : 2 ^ (Z.pos (digits2_pos p) - 1) <= Z.pos p.
Proof.
  induction p as [p IH|p IH|]; simpl digits2_pos; [| |simpl; lia].
  - rewrite Pos2Z.inj_succ. replace (Z.succ (Z.pos (digits2_pos p)) - 1)
      with (Z.succ (Z.pos (digits2_pos p) - 1)) by lia.
    rewrite Z.pow_succ_r by lia. lia.
  - rewrite Pos2Z.inj_succ. replace (Z.succ (Z.pos (digits2_pos p)) - 1)
      with (Z.succ (Z.pos (digits2_pos p) - 1)) by lia.
    rewrite Z.pow_succ_r by lia. lia.
Qed.

(** An integer of at most 53 bits converts to the float64 that denotes it. *)
Lemma binary_round_small s p :
  Z.pos p < 2 ^ 53 ->
  to_int (binary_round prec emax s p 0) = Some ((if s then -1 else 1) * Z.pos p).
Proof.
  intros Hp.
  assert (Hd : Z.pos (digits2_pos p) <= 53).
  { pose proof (digits2_pos_bound p).
    destruct (Z.le_gt_cases (Z.pos (digits2_pos p)) 53) as [|Hgt]; [done|].
    assert (2 ^ 53 <= 2 ^ (Z.pos (digits2_pos p) - 1)) by (apply Z.pow_le_mono_r; lia).
    lia. }
  unfold binary_round.
  assert (Hfexp : fexp prec emax (Z.pos (digits2_pos p) + 0) = Z.pos (digits2_pos p) - 53).
  { unfold fexp, emin, prec, emax. lia. }
  rewrite Hfexp. unfold shl_align.
  assert (Haux : forall mz ez, Z.pos (digits2_pos mz) = 53 -> -53 < ez <= 0 ->
            binary_round_aux prec emax s (Z.pos mz) ez loc_Exact = S754_finite s mz ez).
  { intros mz ez Hmz Hez. unfold binary_round_aux, shr_fexp. simpl Zdigits2.
    assert (Hf : fexp prec emax (Z.pos (digits2_pos mz) + ez) - ez = 0).
    { unfold fexp, emin, prec, emax. lia. }
    rewrite Hf. simpl. rewrite Hf. simpl.
    destruct (ez <=? emax - prec) eqn:Hle; [done|].
    apply Z.leb_gt in Hle. unfold emax, prec in Hle. lia. }
  destruct (Z.pos (digits2_pos p) - 53 - 0) as [|k|k] eqn:Hk; [|lia|].
  - rewrite Haux by lia. simpl. f_equal. destruct s; lia.
  - rewrite Haux; [|rewrite iter_xO_digits; lia|lia].
    unfold to_int. replace (0 <=? Z.pos (digits2_pos p) - 53) with false
      by (symmetry; apply Z.leb_gt; lia).
    rewrite iter_xO_value. replace (- (Z.pos (digits2_pos p) - 53)) with (Z.pos k) by lia.
    assert (0 < 2 ^ Z.pos k) by (apply Z.pow_pos_nonneg; lia).
    rewrite Z.mod_mul, Z.div_mul by lia. simpl. f_equal.
Qed.

Lemma of_int_exact n : Z.abs n <= 2 ^ 53 -> to_int (of_int n) = Some n.
Proof.
  intros Hn. destruct (Z.eq_dec (Z.abs n) (2 ^ 53)) as [Heq|Hne].
  - destruct n as [|q|q]; [discriminate| |];
      simpl in Heq; injection Heq as ->; by vm_compute.
  - destruct n as [|q|q]; [reflexivity| |]; unfold of_int, of_dyadic, binary_normalize;
      rewrite binary_round_small by (simpl in *; lia); f_equal; lia.
Qed.

Lemma append_cons x a b : String x a ++ b = String x (a ++ b).
Proof. reflexivity. Qed.

Lemma has_prefix_append p s : Fmt.has_prefix p (p ++ s) = true.
Proof.
  induction p as [|x p IH]; [by destruct s|].
  rewrite append_cons. simpl. by rewrite Ascii.eqb_refl, IH.
Qed.

Lemma contains_prefix s sub : Fmt.has_prefix sub s = true -> Fmt.contains s sub = true.
Proof. intros H. destruct s; simpl; by rewrite H. Qed.

Lemma contains_append a s sub : Fmt.contains s sub = true -> Fmt.contains (a ++ s) sub = true.
Proof.
  intros H. induction a as [|x a IH]; [exact H|].
  rewrite append_cons. simpl. rewrite IH. apply orb_true_r.
Qed.

(** A message contains each of the pieces it is put together from. *)
Lemma contains_middle a sub b : Fmt.contains (a ++ sub ++ b) sub = true.
Proof. apply contains_append, contains_prefix, has_prefix_append. Qed.

Lemma contains_end a sub : Fmt.contains (a ++ sub) sub = true.
Proof.
  apply contains_append, contains_prefix.
  induction sub as [|x sub IH]; [reflexivity|]. simpl. by rewrite Ascii.eqb_refl, IH.
Qed.

(** ** Attributes *)

(** Writing the labels last amounts to a union in which the labels win. *)
Lemma putLabels_union (labels attrs : gmap string string) :
  putLabels labels attrs = labels ∪ attrs.
Proof.
  unfold putLabels.
  apply (map_fold_weak_ind (fun r (m : gmap string string) => r = m ∪ attrs)).
  - by rewrite (left_id_L ∅ (∪)).
  - intros k v m r Hk ->. unfold PutStr. by rewrite insert_union_l.
Qed.

Lemma putLabels_superset (labels attrs : gmap string string) :
  labels ⊆ putLabels labels attrs.
Proof. rewrite putLabels_union. apply map_union_subseteq_l. Qed.

Lemma putLabels_keeps_keys (labels attrs : gmap string string) k :
  is_Some (attrs !! k) -> is_Some (putLabels labels attrs !! k).
Proof.
  rewrite putLabels_union, lookup_union. intros [v ->].
  destruct (labels !! k); simpl; eauto.
Qed.

Lemma putLabels_lookup_free (labels attrs : gmap string string) k :
  labels !! k = None -> putLabels labels attrs !! k = attrs !! k.
Proof. intros Hk. by rewrite putLabels_union, lookup_union_r. Qed.

(** C2.  A node that is not an object adds nothing.  A node that is an
    object adds, in this order: [<base>.agg.<name>] if it has a numeric
    [value]; [<base>.agg.<name>.doc_count], unit "documents", if it has a
    numeric [doc_count], whether or not it has [buckets] as well; and what
    its buckets add, if it has a [buckets] array. *)
Theorem node_doc_count_whatever_the_buckets
    (queryConfig : QueryConfig) (timestamp : Z) (base aggName : string)
    (aggValue : json) (sm : ScopeMetrics) :
  processAggregation queryConfig timestamp base aggName aggValue sm =
  match aggValue with
  | JObj aggMap =>
      (sm ++ match field_float64 "value" aggMap with
             | Some value =>
                 [gaugeMetric queryConfig timestamp (base ++ ".agg." ++ aggName)
                    ("Aggregation result for " ++ aggName) "" value]
             | None => []
             end
          ++ match field_float64 "doc_count" aggMap with
             | Some docCount =>
                 [gaugeMetric queryConfig timestamp
                    (base ++ ".agg." ++ aggName ++ ".doc_count")
                    ("Document count for " ++ aggName) "documents" docCount]
             | None => []
             end
          ++ match field_slice "buckets" aggMap with
             | Some buckets => processBuckets queryConfig timestamp base aggName buckets []
             | None => []
             end)%list
  | _ => sm
  end.
Proof.
  destruct aggValue as [| | | | |aggMap]; try reflexivity.
  apply processAggregation_emits.
Qed.

(** C2, as stated, fails: the node [{"doc_count": 3, "buckets": []}] has
    buckets and still yields the node's own [p.agg.levels.doc_count]. *)
Lemma node_with_buckets_still_counts :
  let aggMap := [("doc_count", JNum (of_int 3)); ("buckets", JArr [])] in
  field_slice "buckets" aggMap = Some []
  /\ exists m,
       processAggregation errorCount 0 "p" "levels" (JObj aggMap) [] = [m]
       /\ metric_Name m = "p.agg.levels.doc_count"
       /\ metric_Unit m = "documents"
       /\ to_int (dp_Value m) = Some 3.
Proof.
  split; [reflexivity|].
  exists (gaugeMetric errorCount 0 "p.agg.levels.doc_count"
            "Document count for levels" "documents" (of_int 3)).
  repeat split.
Qed.




(** ** Labels of the emitted metrics *)

(** Every metric [recordGaugeMetric] appends carries the query's labels,
    [query.name] and, when the description is not empty,
    [query.description]. *)
Lemma gaugeMetric_attributes queryConfig timestamp name description unit value :
  let attrs := dp_Attributes (gaugeMetric queryConfig timestamp name description unit value) in
  Labels queryConfig ⊆ attrs
  /\ is_Some (attrs !! "query.name")
  /\ (Description queryConfig <> "" -> is_Some (attrs !! "query.description")).
Proof.
  cbn. split; [apply putLabels_superset|]. split.
  - apply putLabels_keeps_keys.
    destruct (negb _); unfold PutStr; rewrite ?lookup_insert_ne by done;
      rewrite lookup_insert_eq; eauto.
  - intros Hd. apply putLabels_keeps_keys.
    destruct (String.eqb_spec (Description queryConfig) ""); [done|]. simpl.
    unfold PutStr. rewrite lookup_insert_eq; eauto.
Qed.

(** The metric of a bucket's [doc_count] carries the query's labels,
    [query.name], [bucket.key] and [aggregation]. *)
Lemma bucketDocCountMetric_attributes queryConfig timestamp base aggName key docCount :
  let attrs := dp_Attributes
                 (bucketDocCountMetric queryConfig timestamp base aggName key docCount) in
  Labels queryConfig ⊆ attrs
  /\ is_Some (attrs !! "query.name")
  /\ is_Some (attrs !! "bucket.key")
  /\ is_Some (attrs !! "aggregation")
  /\ (Labels queryConfig !! "bucket.key" = None -> attrs !! "bucket.key" = Some key)
  /\ (Labels queryConfig !! "aggregation" = None -> attrs !! "aggregation" = Some aggName)
  /\ attrs !! "query.description" = Labels queryConfig !! "query.description".
Proof.
  cbn. split; [apply putLabels_superset|].
  repeat split; try (apply putLabels_keeps_keys; unfold PutStr;
                     rewrite ?lookup_insert_ne by done; rewrite lookup_insert_eq; eauto).
  - intros Hk. rewrite putLabels_lookup_free by done. unfold PutStr.
    rewrite lookup_insert_ne by done. by rewrite lookup_insert_eq.
  - intros Hk. rewrite putLabels_lookup_free by done. unfold PutStr.
    by rewrite lookup_insert_eq.
  - rewrite putLabels_union, lookup_union. unfold PutStr.
    rewrite !lookup_insert_ne by done. rewrite lookup_empty.
    by destruct (Labels queryConfig !! "query.description").
Qed.

(** Every metric the walk adds carries the query's labels and [query.name]. *)
Lemma walk_attributes queryConfig timestamp base aggregations :
  Forall (fun m => Labels queryConfig ⊆ dp_Attributes m
                   /\ is_Some (dp_Attributes m !! "query.name"))
         (processAggregations queryConfig timestamp base aggregations []).
Proof.
  rewrite processAggregations_emits, app_nil_l.
  apply List.Forall_flat_map, List.Forall_forall. intros [k v] _.
  apply processAggregation_Forall.
  - intros. split; apply gaugeMetric_attributes.
  - intros. split; apply bucketDocCountMetric_attributes.
Qed.

(** C4.  The query [error_count] has a description.  Of the two metrics the
    example's aggregations add for it, the one [recordGaugeMetric] appends
    carries [query.description]; the [doc_count] metric that
    [processBuckets] builds itself carries [query.name], [bucket.key],
    [aggregation] and the query's labels, and no [query.description]. *)
Theorem bucket_doc_count_lacks_description :
  Description Sample.errorCount <> ""
  /\ exists counted averaged,
       processAggregations Sample.errorCount 7 "logs.errors"
         (Sample.levelsAggregations Sample.levelsBucket) [] = [counted; averaged]
       /\ metric_Name counted = "logs.errors.agg.levels.bucket.doc_count"
       /\ dp_Attributes counted !! "query.description" = None
       /\ dp_Attributes counted !! "query.name" = Some "error_count"
       /\ dp_Attributes counted !! "bucket.key" = Some "ERROR"
       /\ dp_Attributes counted !! "aggregation" = Some "levels"
       /\ dp_Attributes counted !! "severity" = Some "error"
       /\ metric_Name averaged = "logs.errors.ERROR.agg.avg_latency"
       /\ dp_Attributes averaged !! "query.description" = Some "Count of error logs".
Proof.
  split; [discriminate|].
  eexists _, _. split; [reflexivity|]. by vm_compute.
Qed.

(** C7.  The key of the bucket at index [i] is the [key] field itself when
    that is a string, its [%.0f] rendering when it is a number, and
    [bucket_<i>] when the bucket has no [key] (or one that is neither).  The
    rendering of a finite number is an optional minus sign followed by the
    decimal digits of an integer nearest to it: no decimal point, no
    fraction, no exponent.  [i] is the position of the bucket in its
    array, counted from zero. *)
Theorem bucket_key_resolution (i : nat) (bucketMap : list (string * json)) :
  bucketKey i bucketMap =
    match lookup_field "key" bucketMap with
    | Some (JStr keyVal) => keyVal
    | Some (JNum keyVal) => fmt_f0 keyVal
    | _ => "bucket_" ++ Fmt.itoa (Z.of_nat i)
    end
  /\ (forall sign m e,
        let digits := Fmt.itoa (round_half_even m e) in
        fmt_f0 (S754_finite sign m e) = (if sign then "-" else "") ++ digits
        /\ Fmt.all_digits digits = true
        /\ 2 * Z.abs (round_half_even m e * 2 ^ Z.max 0 (- e) - Z.pos m * 2 ^ Z.max 0 e)
             <= 2 ^ Z.max 0 (- e))
  /\ (forall sign, fmt_f0 (S754_zero sign) = if sign then "-0" else "0")
  /\ (forall queryConfig timestamp base aggName buckets j bucketMap' docCount,
        buckets !! j = Some (JObj bucketMap') ->
        field_float64 "doc_count" bucketMap' = Some docCount ->
        In (bucketDocCountMetric queryConfig timestamp base aggName
              (bucketKey j bucketMap') docCount)
           (processBuckets queryConfig timestamp base aggName buckets [])).
Proof.
  split; [|split; [|split]].
  - unfold bucketKey, field_string, field_float64.
    by destruct (lookup_field "key" bucketMap) as [[]|].
  - intros sign m e digits. split; [reflexivity|]. split.
    + apply itoa_digits, round_half_even_nonneg.
    + apply round_half_even_nearest.
  - by intros [].
  - intros queryConfig timestamp base aggName buckets j bucketMap' docCount Hj Hd.
    rewrite processBuckets_emits, app_nil_l. apply in_concat.
    exists (processBucket queryConfig timestamp (processAggregation queryConfig timestamp)
              base aggName j (JObj bucketMap') []).
    split.
    + apply list_elem_of_In.
      apply (elem_of_lookup_imap_2
               (fun i bucket => processBucket queryConfig timestamp
                                  (processAggregation queryConfig timestamp)
                                  base aggName i bucket []) buckets _ j Hj).
    + rewrite processBucket_emits, Hd, app_nil_l. by left.
Qed.

(** The third bucket of an array, with a numeric, a string and no key. *)
Lemma bucket_key_examples :
  bucketKey 2 [("key", JNum (of_dyadic 15 (-1))); ("doc_count", JNum (of_int 4))] = "8"
  /\ bucketKey 2 [("doc_count", JNum (of_int 4)); ("key", JStr "2024-01-01")] = "2024-01-01"
  /\ bucketKey 2 [("doc_count", JNum (of_int 4))] = "bucket_2"
  /\ In (bucketDocCountMetric errorCount 7 "p" "per_day" "bucket_1" (of_int 4))
        (processBuckets errorCount 7 "p" "per_day"
           [JObj [("key", JStr "a")]; JObj [("doc_count", JNum (of_int 4))]] []).
Proof.
  repeat split; try reflexivity.
  exact (proj2 (proj2 (proj2 (bucket_key_resolution 0 [])))
           errorCount 7 "p" "per_day"
           [JObj [("key", JStr "a")]; JObj [("doc_count", JNum (of_int 4))]]
           1%nat [("doc_count", JNum (of_int 4))] (of_int 4) eq_refl eq_refl).
Defined.

(** ** Summary metrics *)

(** C5.  When the query has executed, [executeAndRecordQuery] returns no
    error and has appended exactly five summary metrics, named
    [<prefix>.count], [.took_ms], [.shards.total], [.shards.successful] and
    [.shards.failed], followed by whatever the aggregations add.  Their
    values are the float64 conversions of [hits.total.value], [took] and the
    three shard counts; a conversion denotes the field itself whenever the
    field's magnitude is at most 2^53. *)
Theorem five_summary_metrics {W : Type} (E : Env W) (config : Config)
    (queryConfig : QueryConfig) (sm : ScopeMetrics) (timestamp : Z)
    (s s1 : World W) (resp : SearchResponse)
    (Hexec : ExecuteQuery E config queryConfig s = (Ok resp, s1)) :
  let prefix := if String.eqb (MetricName queryConfig) ""
                then "opensearch.query." ++ Name queryConfig
                else MetricName queryConfig in
  let gauge := gaugeMetric queryConfig timestamp in
  let summary :=
    [gauge (prefix ++ ".count") "Number of documents matching the query" "hits"
       (of_int (Value (HitsTotal_ (Hits resp))));
     gauge (prefix ++ ".took_ms") "Query execution time in milliseconds" "ms"
       (of_int (Took resp));
     gauge (prefix ++ ".shards.total") "Total number of shards queried" "shards"
       (of_int (Total (Shards resp)));
     gauge (prefix ++ ".shards.successful") "Number of successful shards" "shards"
       (of_int (Successful (Shards resp)));
     gauge (prefix ++ ".shards.failed") "Number of failed shards" "shards"
       (of_int (Failed (Shards resp)))] in
  let aggregated :=
    processAggregations queryConfig timestamp prefix (default [] (Aggregations resp)) [] in
  (executeAndRecordQuery E config queryConfig sm timestamp s).1
    = (None, (sm ++ summary ++ aggregated)%list)
  /\ Forall2 (fun m field => Z.abs field <= 2 ^ 53 -> to_int (dp_Value m) = Some field)
       summary
       [Value (HitsTotal_ (Hits resp)); Took resp; Total (Shards resp);
        Successful (Shards resp); Failed (Shards resp)].
Proof.
  intros prefix gauge summary aggregated. split.
  - unfold executeAndRecordQuery, bind. rewrite Hexec. cbn [fst logf ret].
    f_equal. unfold recordResponse. fold prefix. unfold recordGaugeMetric.
    rewrite <- !app_assoc. cbn [app]. fold gauge.
    unfold aggregated, summary.
    destruct (Aggregations resp) as [aggregations|]; cbn [default from_option id].
    + destruct aggregations as [|a aggregations]; cbn [length Nat.ltb Nat.leb].
      * cbn [processAggregations range_map]. by rewrite !app_nil_r.
      * rewrite processAggregations_emits, (processAggregations_emits _ _ _ _ []).
        rewrite <- !app_assoc. reflexivity.
    + cbn [processAggregations range_map]. by rewrite !app_nil_r.
  - repeat constructor; intros; by apply of_int_exact.
Qed.

(** The scripted query of a hundred hits: five summary metrics, then the
    two of the example's aggregations. *)
Lemma five_summary_metrics_hundred :
  ExecuteQuery scripted validated errorCount (world [answered 200 "hundred"]) =
    (Ok hundredHits,
     (ExecuteQuery scripted validated errorCount (world [answered 200 "hundred"])).2)
  /\ let added := (executeAndRecordQuery scripted validated errorCount [] 7
                     (world [answered 200 "hundred"])).1.2 in
     map metric_Name added =
       ["logs.errors.count"; "logs.errors.took_ms"; "logs.errors.shards.total";
        "logs.errors.shards.successful"; "logs.errors.shards.failed";
        "logs.errors.agg.levels.bucket.doc_count"; "logs.errors.ERROR.agg.avg_latency"]
     /\ map (fun m => to_int (dp_Value m)) (take 5 added) =
          [Some 100; Some 42; Some 5; Some 5; Some 0].
Proof.
  assert (Hexec : ExecuteQuery scripted validated errorCount
                    (world [answered 200 "hundred"]) =
                  (Ok hundredHits,
                   (ExecuteQuery scripted validated errorCount
                      (world [answered 200 "hundred"])).2)).
  { vm_compute. reflexivity. }
  split; [exact Hexec|].
  pose proof (proj1 (five_summary_metrics scripted validated errorCount [] 7 _ _ _ Hexec))
    as Hfive.
  cbv zeta in *. rewrite Hfive. split; vm_compute; reflexivity.
Defined.

(** C5, as stated, fails: 2^53 + 1 hits are reported as 2^53. *)
Lemma large_count_is_rounded :
  let s := world [answered 200 "many"] in
  (ExecuteQuery scripted validated errorCount s).1 = Ok manyHits
  /\ Value (HitsTotal_ (Hits manyHits)) = 2 ^ 53 + 1
  /\ exists m rest,
       (executeAndRecordQuery scripted validated errorCount [] 7 s).1 = (None, m :: rest)
       /\ metric_Name m = "logs.errors.count"
       /\ to_int (dp_Value m) = Some (2 ^ 53)
       /\ to_int (dp_Value m) <> Some (Value (HitsTotal_ (Hits manyHits))).
Proof.
  split; [by vm_compute|]. split; [reflexivity|].
  eexists _, _. split; [by vm_compute|]. by vm_compute.
Qed.

(** ** The status of the response *)

(** C3.  Once the request has been built and sent and the body of the
    response has been read, [ExecuteQuery] returns the status error
    ["unexpected status code <status>: <body>"] exactly when the status is
    not 200.  That message contains the decimal status code and the raw
    body.  Status 200 never yields it: the result is then the decoded
    response, or the decoder's error. *)
Theorem status_error_unless_200 {W : Type} (E : Env W) (config : Config)
    (query : QueryConfig) (s s1 : World W) (req : Request) (resp : Response)
    (w : W) (body : string)
    (Hbuilt : buildRequest E config query s = (Ok req, s1))
    (Hsent : http_Do E req (ext s1) = (Ok resp, w))
    (Hread : ReadAll resp = (body, None)) :
  let outcome := (ExecuteQuery E config query s).1 in
  let statusError :=
    "unexpected status code " ++ Fmt.itoa (StatusCode resp) ++ ": " ++ body in
  (outcome = Err statusError <-> StatusCode resp <> 200)
  /\ (StatusCode resp = 200 ->
      outcome = match json_Unmarshal E body with
                | Ok searchResp => Ok searchResp
                | Err e => Err ("failed to unmarshal response: " ++ e)
                end)
  /\ Fmt.contains statusError (Fmt.itoa (StatusCode resp)) = true
  /\ Fmt.contains statusError body = true.
Proof.
  intros outcome statusError.
  assert (Hout : outcome =
                 if StatusCode resp =? 200
                 then match json_Unmarshal E body with
                      | Ok searchResp => Ok searchResp
                      | Err e => Err ("failed to unmarshal response: " ++ e)
                      end
                 else Err statusError).
  { unfold outcome, ExecuteQuery, bind. rewrite Hbuilt. unfold outside. rewrite Hsent.
    unfold readResponse. rewrite Hread. unfold StatusOK.
    destruct (StatusCode resp =? 200); simpl; [|reflexivity].
    by destruct (json_Unmarshal E body). }
  repeat split.
  - intros Herr Hst. rewrite Hout, Hst in Herr. simpl in Herr.
    destruct (json_Unmarshal E body); discriminate Herr.
  - intros Hst. rewrite Hout. by destruct (Z.eqb_spec (StatusCode resp) 200).
  - intros Hst. by rewrite Hout, Hst.
  - apply contains_middle.
  - unfold statusError. rewrite <- !append_assoc. apply contains_end.
Qed.

(** The exchange of [TestExecuteQueryError]. *)
Lemma status_error_500 :
  let s := world [answered 500 "Internal server error"] in
  exists req s1 resp w,
    buildRequest scripted validated errorCount s = (Ok req, s1)
    /\ http_Do scripted req (ext s1) = (Ok resp, w)
    /\ ReadAll resp = ("Internal server error", None)
    /\ (ExecuteQuery scripted validated errorCount s).1
       = Err "unexpected status code 500: Internal server error".
Proof.
  intros s.
  assert (Hbuilt : buildRequest scripted validated errorCount s =
                   ((buildRequest scripted validated errorCount s).1,
                    (buildRequest scripted validated errorCount s).2))
    by (by destruct (buildRequest scripted validated errorCount s)).
  assert (Hreq : exists req, (buildRequest scripted validated errorCount s).1 = Ok req)
    by (eexists; vm_compute; reflexivity).
  destruct Hreq as [req Hreq]. rewrite Hreq in Hbuilt.
  exists req, (buildRequest scripted validated errorCount s).2,
    {| StatusCode := 500; ReadAll := ("Internal server error", None) |}, [].
  assert (Hsent : http_Do scripted req (ext (buildRequest scripted validated errorCount s).2)
                  = (Ok {| StatusCode := 500; ReadAll := ("Internal server error", None) |}, []))
    by (vm_compute; reflexivity).
  split; [exact Hbuilt|]. split; [exact Hsent|]. split; [reflexivity|].
  apply (proj1 (status_error_unless_200 scripted validated errorCount s _ req _ _ _
                  Hbuilt Hsent eq_refl)).
  simpl. lia.
Defined.

(** C3, as stated, fails: 201 is a 2xx status, its body decodes, and the
    call returns the status error. *)
Lemma created_is_a_status_error :
  let s := world [answered 201 "hundred"] in
  exists req s1 resp w,
    buildRequest scripted validated errorCount s = (Ok req, s1)
    /\ http_Do scripted req (ext s1) = (Ok resp, w)
    /\ StatusCode resp = 201
    /\ ReadAll resp = ("hundred", None)
    /\ json_Unmarshal scripted "hundred" = Ok hundredHits
    /\ (ExecuteQuery scripted validated errorCount s).1
       = Err "unexpected status code 201: hundred".
Proof.
  eexists _, _, _, _. split; [by vm_compute|]. by vm_compute.
Qed.

(** ** The time window *)

(** A map literal takes an address that was free and changes nothing
    else. *)
Lemma new_map_fresh {W : Type} (o : mapobj) (s : World W) :
  exists l,
    new_map o s = (Some l, {| heap := <[l := o]> (heap s); log := log s; ext := ext s |})
    /\ heap s !! l = None.
Proof.
  exists (fresh (dom (heap s))). split; [reflexivity|].
  apply not_elem_of_dom, is_fresh.
Qed.

Lemma neg64_in_range d : - 2 ^ 63 < d < 2 ^ 63 -> neg64 d = - d.
Proof.
  intros Hd. unfold neg64, wrap64.
  rewrite Z.mod_small by lia. lia.
Qed.

(** The rendering has a precision of one second. *)
Lemma formatRFC3339_whole_seconds (t u : Time) :
  unixNano t / 1000000000 = unixNano u / 1000000000 ->
  zoneOffset t = zoneOffset u ->
  formatRFC3339 t = formatRFC3339 u.
Proof. intros Hs Hz. unfold formatRFC3339. by rewrite Hs, Hz. Qed.

(** C6.  [addTimeRangeFilter] reads the clock once and returns the address
    of a new map [{bool: {must: [Q], filter: [{range: {<TimeField>: {gte,
    lte}}}]}}].  [Q] is stored in [must] by reference; the five maps of the
    wrapper are new, and every map that existed before the call, those of
    [Q] among them, is left as it was.  [lte] is the RFC 3339 rendering of
    the clock reading and [gte] that of the reading minus the lookback
    period, each with the offset that the location of the clock reading
    has at that instant.  The two instants differ by exactly the lookback
    period, and [gte] comes before [lte] whenever that period is
    positive. *)
Theorem time_window_wraps_by_reference {W : Type} (E : Env W) (config : Config)
    (query : mapref) (s : World W) :
  let now := (time_Now E (ext s)).1 in
  let startTime := Add now (neg64 (LookbackPeriod config)) in
  exists bounds byField timeFilter clauses wrapped s',
    addTimeRangeFilter E config query s = (Some wrapped, s')
    /\ heap s' !! wrapped = Some {[ "bool" := VMap (Some clauses) ]}
    /\ heap s' !! clauses = Some {[ "must" := VSlice [VMap query];
                                    "filter" := VSlice [VMap (Some timeFilter)] ]}
    /\ heap s' !! timeFilter = Some {[ "range" := VMap (Some byField) ]}
    /\ heap s' !! byField = Some {[ TimeField config := VMap (Some bounds) ]}
    /\ heap s' !! bounds = Some {[ "gte" := VStr (formatRFC3339 startTime);
                                   "lte" := VStr (formatRFC3339 now) ]}
    /\ (forall l, is_Some (heap s !! l) -> heap s' !! l = heap s !! l)
    /\ log s' = log s
    /\ ext s' = (time_Now E (ext s)).2
    /\ (- 2 ^ 63 < LookbackPeriod config < 2 ^ 63 ->
        unixNano now - unixNano startTime = LookbackPeriod config)
    /\ (0 < LookbackPeriod config < 2 ^ 63 -> unixNano startTime < unixNano now)
    /\ zoneOffset startTime
       = location now ((unixNano now + neg64 (LookbackPeriod config)) / 1000000000).
Proof.
  intros now startTime. unfold addTimeRangeFilter, bind, outside, ret.
  destruct (time_Now E (ext s)) as [t w] eqn:Hnow. cbn [fst snd] in *.
  subst now.
  destruct (new_map_fresh
              {[ "gte" := VStr (formatRFC3339 startTime); "lte" := VStr (formatRFC3339 t) ]}
              {| heap := heap s; log := log s; ext := w |}) as (l1 & Heq1 & H1).
  fold startTime. rewrite Heq1. cbv beta iota.
  match goal with |- context [new_map ?o ?s1] =>
    destruct (new_map_fresh o s1) as (l2 & Heq2 & H2); rewrite Heq2; cbv beta iota end.
  match goal with |- context [new_map ?o ?s2] =>
    destruct (new_map_fresh o s2) as (l3 & Heq3 & H3); rewrite Heq3; cbv beta iota end.
  match goal with |- context [new_map ?o ?s3] =>
    destruct (new_map_fresh o s3) as (l4 & Heq4 & H4); rewrite Heq4; cbv beta iota end.
  match goal with |- context [new_map ?o ?s4] =>
    destruct (new_map_fresh o s4) as (l5 & Heq5 & H5); rewrite Heq5; cbv beta iota end.
  clear Heq1 Heq2 Heq3 Heq4 Heq5.
  exists l1, l2, l3, l4, l5. eexists. split; [reflexivity|].
  cbn [heap log ext] in *.
  assert (Hne : l1 <> l2 /\ l1 <> l3 /\ l1 <> l4 /\ l1 <> l5 /\ l2 <> l3 /\ l2 <> l4
                /\ l2 <> l5 /\ l3 <> l4 /\ l3 <> l5 /\ l4 <> l5).
  { repeat split; intros ->;
      repeat match goal with
             | H : <[_ := _]> _ !! _ = None |- _ =>
                 apply lookup_insert_None in H as [H ?]
             end; congruence. }
  destruct Hne as (? & ? & ? & ? & ? & ? & ? & ? & ? & ?).
  repeat split.
  - by rewrite lookup_insert_eq.
  - rewrite lookup_insert_ne by done. by rewrite lookup_insert_eq.
  - rewrite !lookup_insert_ne by done. by rewrite lookup_insert_eq.
  - rewrite !lookup_insert_ne by done. by rewrite lookup_insert_eq.
  - rewrite !lookup_insert_ne by done. by rewrite lookup_insert_eq.
  - intros l [o Hl].
    repeat match goal with
           | H : <[_ := _]> _ !! _ = None |- _ =>
               apply lookup_insert_None in H as [H ?]
           end.
    rewrite !lookup_insert_ne; [done|congruence..].
  - intros Hd. unfold startTime, Add. cbn [unixNano]. rewrite neg64_in_range by done. lia.
  - intros Hd. unfold startTime, Add. cbn [unixNano]. rewrite neg64_in_range by lia. lia.
Qed.

(** The wrapper of [TestAddTimeRangeFilter], read back from the store; the
    query it wraps reads the same before and after. *)
Lemma time_window_sample :
  exists wrapped s',
    addTimeRangeFilter scripted validated (Some 1%positive) (world []) = (Some wrapped, s')
    /\ reify 8 (heap s') (VMap (Some wrapped)) =
       JObj [("bool",
              JObj [("must", JArr [JObj [("match_all", JObj [])]]);
                    ("filter",
                     JArr [JObj [("range",
                                  JObj [("@timestamp",
                                         JObj [("gte", JStr "2023-11-14T22:08:20Z");
                                               ("lte", JStr "2023-11-14T22:13:20Z")])])]])])]
    /\ reify 8 (heap s') (VMap (Some 1%positive))
       = reify 8 bodies (VMap (Some 1%positive)).
Proof. eexists _, _. split; [by vm_compute|]. by vm_compute. Qed.

(** C6, as stated, fails: [Validate] accepts a lookback period of minus
    five minutes, and the window then starts five minutes after it ends. *)
Lemma negative_lookback_inverts_window :
  Validate bodies lookingAhead = (lookingAhead, None)
  /\ exists wrapped s',
       addTimeRangeFilter scripted lookingAhead (Some 1%positive) (world [])
         = (Some wrapped, s')
       /\ reify 8 (heap s') (VMap (Some wrapped)) =
          JObj [("bool",
                 JObj [("must", JArr [JObj [("match_all", JObj [])]]);
                       ("filter",
                        JArr [JObj [("range",
                                     JObj [("@timestamp",
                                            JObj [("gte", JStr "2023-11-14T22:18:20Z");
                                                  ("lte", JStr "2023-11-14T22:13:20Z")])])]])])]
       /\ unixNano clock < unixNano (Add clock (neg64 (LookbackPeriod lookingAhead))).
Proof.
  split; [by vm_compute|].
  eexists _, _. split; [by vm_compute|]. by vm_compute.
Qed.

(** Each bound is rendered with the offset its location has at that
    instant: a window that reaches back over the end of summer time starts
    at [+02:00] and ends at [+01:00]. *)
Lemma window_across_a_zone_transition :
  formatRFC3339 noon = "2026-10-25T12:00:00+01:00"
  /\ formatRFC3339 (Add noon (neg64 (24 * 60 * Minute))) = "2026-10-24T13:00:00+02:00".
Proof. split; by vm_compute. Qed.

(** A lookback period shorter than a second can render as an empty
    window. *)
Lemma short_lookback_renders_equal_bounds :
  Validate bodies glancing = (glancing, None)
  /\ formatRFC3339 (Add clock (neg64 (LookbackPeriod glancing))) = formatRFC3339 clock.
Proof. split; by vm_compute. Qed.

(** ** The scrape cycle *)

Section Cycle.
Context {W : Type} (E : Env W) (config : Config).

Lemma recordResponse_framed queryConfig timestamp resp :
  framed (recordResponse queryConfig timestamp resp).
Proof.
  intros sm. unfold recordResponse, recordGaugeMetric.
  destruct (Aggregations resp) as [aggregations|];
    [destruct (0 <? length aggregations)%nat|];
    rewrite ?processAggregations_emits, <- ?app_assoc; reflexivity.
Qed.

Lemma attempt_record queryConfig sm now s :
  executeAndRecordQuery E config queryConfig sm now s =
  let '(answer, s1) := ExecuteQuery E config queryConfig s in
  match answer with
  | Ok resp =>
      ((None, (sm ++ contribution now (queryConfig, answer))%list),
       (attempt E config queryConfig s).2)
  | Err e =>
      ((Some ("query execution failed: " ++ e),
        (sm ++ contribution now (queryConfig, answer))%list), s1)
  end.
Proof.
  unfold executeAndRecordQuery, attempt, bind, contribution.
  destruct (ExecuteQuery E config queryConfig s) as [[resp|e] s1]; cbn [fst snd].
  - unfold ret, logf. by rewrite recordResponse_framed.
  - unfold ret. by rewrite app_nil_r.
Qed.

(** The loop of [scrape] adds, to what is there, the contributions of the
    queries in configured order. *)
Lemma scrapeQueries_attempts now queries sm s :
  scrapeQueries E config now queries sm s =
  ((sm ++ flat_map (contribution now) (attempts E config queries s).1)%list,
   (attempts E config queries s).2).
Proof.
  revert sm s. induction queries as [|queryConfig rest IH]; intros sm s.
  - cbn. by rewrite app_nil_r.
  - cbn [scrapeQueries attempts]. unfold bind at 1. rewrite attempt_record.
    unfold attempt.
    destruct (ExecuteQuery E config queryConfig s) as [[resp|e] s1]; cbn [fst snd].
    + rewrite IH. destruct (attempts E config rest _) as [others s2]. cbn [fst snd flat_map].
      by rewrite <- app_assoc.
    + unfold bind. cbn [logf]. rewrite IH.
      destruct (attempts E config rest _) as [others s2]. cbn [fst snd flat_map].
      by rewrite <- app_assoc.
Qed.

Lemma attempts_queries queries s :
  map fst (attempts E config queries s).1 = queries.
Proof.
  revert s. induction queries as [|queryConfig rest IH]; intros s; [reflexivity|].
  cbn [attempts]. destruct (attempt E config queryConfig s) as [answer s1].
  specialize (IH s1). destruct (attempts E config rest s1) as [others s2].
  cbn [fst map] in *. by rewrite IH.
Qed.

(** A failed query leaves one entry "Failed to execute query" naming it at
    the end of the log; the store and the outside world are as
    [ExecuteQuery] left them. *)
Lemma attempt_failure_logged queryConfig s e :
  (ExecuteQuery E config queryConfig s).1 = Err e ->
  (attempt E config queryConfig s).1 = Err e
  /\ log (attempt E config queryConfig s).2 =
     (log (ExecuteQuery E config queryConfig s).2
      ++ [{| level := "error"; message := "Failed to execute query";
             fields := [("query_name", Name queryConfig);
                        ("error", ("query execution failed: " ++ e)%string)] |}])%list.
Proof.
  unfold attempt. destruct (ExecuteQuery E config queryConfig s) as [answer s1].
  cbn [fst snd]. by intros ->.
Qed.

(** C8.  [scrape] never returns an error.  It attempts every configured
    query, in configured order, and the batch it returns is the
    concatenation, in that order, of what the attempted queries contribute:
    the summary and aggregation metrics of its response for a query that
    executed, nothing for a query that failed (whether in transport, by
    status or in decoding).  A failed query leaves an entry "Failed to
    execute query" with its name and error in the log. *)
Theorem scrape_isolates_failures (s : World W) :
  let now := NewTimestampFromTime (time_Now E (ext s)).1 in
  let s0 := (outside (time_Now E) s).2 in
  let met := (attempts E config (Queries config) s0).1 in
  let resource := PutStr "opensearch.mode" (Mode config)
                    (PutStr "opensearch.index_pattern" (IndexPattern config)
                       (PutStr "opensearch.endpoint" (GetEndpoint config)
                          (PutStr "receiver" typeStr ∅))) in
  scrape E config s =
    (({| resource_Attributes := resource;
         scope_Name := typeStr;
         scope_Metrics := flat_map (contribution now) met |}, None),
     (attempts E config (Queries config) s0).2)
  /\ map fst met = Queries config
  /\ (forall queryConfig e, contribution now (queryConfig, Err e) = [])
  /\ (forall queryConfig resp,
        contribution now (queryConfig, Ok resp) = recordResponse queryConfig now resp [])
  /\ (forall queryConfig s' e,
        (ExecuteQuery E config queryConfig s').1 = Err e ->
        (attempt E config queryConfig s').1 = Err e
        /\ log (attempt E config queryConfig s').2 =
           (log (ExecuteQuery E config queryConfig s').2
            ++ [{| level := "error"; message := "Failed to execute query";
                   fields := [("query_name", Name queryConfig);
                              ("error", ("query execution failed: " ++ e)%string)] |}])%list).
Proof.
  intros now s0 met resource. split; [|split; [|split; [|split]]].
  - unfold scrape, bind. subst now s0 met resource. unfold outside.
    destruct (time_Now E (ext s)) as [t w]. cbn [fst snd].
    rewrite scrapeQueries_attempts. reflexivity.
  - apply attempts_queries.
  - reflexivity.
  - reflexivity.
  - apply attempt_failure_logged.
Qed.

End Cycle.

(** A cycle of three queries whose second is answered with status 500: the
    batch holds the metrics of the first and of the third, and the log names
    the second. *)
Lemma scrape_second_of_three_fails :
  let s := world [answered 200 "hundred"; answered 500 "boom"; answered 200 "many"] in
  exists metrics final,
    scrape scripted threeQueries s = ((metrics, None), final)
    /\ map (fun m => (metric_Name m, dp_Attributes m !! "query.name"))
           (scope_Metrics metrics) =
       [("logs.errors.count", Some "error_count");
        ("logs.errors.took_ms", Some "error_count");
        ("logs.errors.shards.total", Some "error_count");
        ("logs.errors.shards.successful", Some "error_count");
        ("logs.errors.shards.failed", Some "error_count");
        ("logs.errors.agg.levels.bucket.doc_count", Some "error_count");
        ("logs.errors.ERROR.agg.avg_latency", Some "error_count");
        ("logs.errors.count", Some "error_count");
        ("logs.errors.took_ms", Some "error_count");
        ("logs.errors.shards.total", Some "error_count");
        ("logs.errors.shards.successful", Some "error_count");
        ("logs.errors.shards.failed", Some "error_count")]
    /\ List.filter (fun entry => String.eqb (level entry) "error") (log final) =
       [{| level := "error"; message := "Failed to execute query";
           fields := [("query_name", "hourly");
                      ("error",
                       "query execution failed: unexpected status code 500: boom")] |}].
Proof. eexists _, _. split; [by vm_compute|]. by vm_compute. Qed.

(** ** The collection loop *)

Section LoopFacts.
Context {St : Type} (collect : St -> St) (config : Config) (a : St).

Lemma run_snoc (s : Sys) tr ev :
  run collect config s (tr ++ [ev]) =
  match run collect config s tr with
  | Some s' => step collect config s' ev
  | None => None
  end.
Proof.
  revert s. induction tr as [|ev' tr IH]; intros s; simpl.
  - by destruct (step collect config s ev).
  - destruct (step collect config s ev'); [apply IH|done].
Qed.

Lemma ticksReceived_snoc tr ev :
  ticksReceived (tr ++ [ev]) =
  (ticksReceived tr + match ev with RecvTick => 1 | _ => 0 end)%nat.
Proof. induction tr as [|[] tr IH]; simpl; rewrite ?IH; by destruct ev. Qed.

Lemma afterReceived_snoc tr ev :
  afterReceived (tr ++ [ev]) =
  afterReceived tr || match ev with RecvAfter => true | _ => false end.
Proof. induction tr as [|[] tr IH]; simpl; rewrite ?IH; by destruct ev. Qed.

Lemma doneReceived_snoc tr ev :
  doneReceived (tr ++ [ev]) =
  doneReceived tr || match ev with RecvDone => true | _ => false end.
Proof. induction tr as [|[] tr IH]; simpl; rewrite ?IH; by destruct ev. Qed.

Lemma reached_at_start : reached collect config a [] (collectionLoop collect config a).
Proof.
  unfold reached, collectionLoop, enterLoop, cyclesStarted. simpl.
  destruct (Z.ltb_spec 0 (InitialDelay config)) as [Hd|Hd];
    destruct (Z.leb_spec (CollectionInterval config) 0) as [Hi|Hi];
    destruct (Z.leb_spec (InitialDelay config) 0); simpl; repeat split; try lia.
Qed.

Lemma reached_step tr s ev s' :
  reached collect config a tr s -> step collect config s ev = Some s' ->
  reached collect config a (tr ++ [ev]) s'.
Proof.
  unfold reached, cyclesStarted.
  rewrite ticksReceived_snoc, afterReceived_snoc, doneReceived_snoc.
  intros [Happ Hpoint] Hstep.
  destruct ev, s as [[] d ar tk ap]; simpl in *; try discriminate;
    repeat match goal with
           | H : (if ?b then _ else _) = Some _ |- _ => destruct b; [|discriminate]
           end;
    try (injection Hstep as <-); simpl in *;
    rewrite ?orb_false_r, ?Nat.add_0_r; try done.
  - (* RecvDone while the delay runs *)
    split; [exact Happ|apply orb_true_r].
  - (* RecvDone in the loop *)
    split; [exact Happ|apply orb_true_r].
  - (* RecvAfter *)
    destruct Hpoint as (Hd & Ha & Ht & Hdn). unfold enterLoop. simpl.
    rewrite Ha, Ht, Hdn in *. rewrite ?orb_true_r.
    destruct (Z.leb_spec (CollectionInterval config) 0) as [Hi|Hi]; simpl in *.
    + repeat split; try done.
    + destruct (Z.leb_spec (InitialDelay config) 0); [lia|].
      rewrite Happ. simpl. repeat split; try done.
  - (* RecvTick *)
    destruct Hpoint as (Hi & Hp & Hdn). rewrite Hp in *.
    destruct (Z.leb_spec (CollectionInterval config) 0); [lia|].
    repeat split; try done. rewrite Happ, Nat.add_1_r. reflexivity.
Qed.

Lemma reached_run tr s :
  run collect config (collectionLoop collect config a) tr = Some s -> reached collect config a tr s.
Proof.
  revert s. induction tr as [|ev tr IH] using rev_ind; intros s.
  - intros [= <-]. apply reached_at_start.
  - rewrite run_snoc.
    destruct (run collect config (collectionLoop collect config a) tr) as [s0|]; [|done].
    intros Hstep. eapply reached_step; [by apply IH|exact Hstep].
Qed.

(** Once the loop has returned, nothing starts a cycle. *)
Lemma returned_is_final (s : Sys) tr s' :
  point s = Returned -> run collect config s tr = Some s' ->
  point s' = Returned /\ app s' = app s.
Proof.
  revert s. induction tr as [|ev tr IH]; intros s Hp; simpl.
  - by intros [= <-].
  - destruct (step collect config s ev) as [s1|] eqn:Hstep; [|done].
    intros Hrun. destruct s as [pt d ar tk ap]. simpl in Hp. subst pt.
    destruct ev; simpl in Hstep; try discriminate.
    injection Hstep as <-. by apply IH in Hrun.
Qed.

(** C9.  In every execution of the collection loop the cycles started so
    far are: none if the ticker cannot be created (a non-positive
    collection interval makes [time.NewTicker] panic); otherwise the first
    one, started when the loop is spawned if there is no initial delay, and
    on receipt of the delay timer if there is one, before any tick is
    received, plus exactly one per tick the loop has received.  So with no
    initial delay and a positive interval, the first cycle has run at
    once, and [k] received ticks make it [k+1].  Once the loop has received
    the cancellation it has returned, and nothing that happens later starts
    a cycle. *)
Theorem collection_loop_schedule (tr : list Event) (s : Sys)
    (Hrun : run collect config (collectionLoop collect config a) tr = Some s) :
  app s = Nat.iter (cyclesStarted config tr) collect a
  /\ (point s = AtDelaySelect -> app s = a /\ ticksReceived tr = 0%nat)
  /\ (point s = AtTickSelect -> app s = Nat.iter (S (ticksReceived tr)) collect a)
  /\ (point s = Panicked -> app s = a /\ ticksReceived tr = 0%nat)
  /\ (doneReceived tr = true <-> point s = Returned)
  /\ (point s = Returned ->
      forall tr' s', run collect config s tr' = Some s' -> app s' = app s)
  /\ (InitialDelay config <= 0 -> 0 < CollectionInterval config ->
      point (collectionLoop collect config a) = AtTickSelect
      /\ app (collectionLoop collect config a) = collect a).
Proof.
  pose proof (reached_run tr s Hrun) as [Happ Hpoint].
  split; [exact Happ|].
  unfold cyclesStarted in Happ.
  split; [|split; [|split; [|split; [|split]]]].
  - intros Hp. rewrite Hp in Hpoint. destruct Hpoint as (Hd & Ha & Ht & _).
    split; [|exact Ht]. rewrite Happ, Ha, Ht.
    destruct (Z.leb_spec (InitialDelay config) 0); [lia|].
    by destruct (CollectionInterval config <=? 0).
  - intros Hp. rewrite Hp in Hpoint. destruct Hpoint as (Hi & Hd & _).
    rewrite Happ, Hd. by destruct (Z.leb_spec (CollectionInterval config) 0); [lia|].
  - intros Hp. rewrite Hp in Hpoint. destruct Hpoint as (Hi & Ht & _).
    split; [|exact Ht]. rewrite Happ.
    by destruct (Z.leb_spec (CollectionInterval config) 0); [|lia].
  - split.
    + intros Hd. destruct (point s); try done; destruct Hpoint as (_ & _ & ?); try congruence.
      destruct H as [_ ?]. congruence.
    + intros Hp. by rewrite Hp in Hpoint.
  - intros Hp tr' s' Hrun'. by apply (returned_is_final s tr' s' Hp Hrun').
  - intros Hd Hi. unfold collectionLoop, enterLoop. simpl.
    destruct (Z.ltb_spec 0 (InitialDelay config)); [lia|].
    by destruct (Z.leb_spec (CollectionInterval config) 0); [lia|].
Qed.

End LoopFacts.

(** With the default delay and interval: two ticks received, then the
    cancellation. *)
Lemma collection_loop_two_ticks :
  let tr := [DelayElapsed; RecvAfter; TickerFires; RecvTick; TickerFires; RecvTick;
             Cancel; RecvDone] in
  exists s,
    run S createDefaultConfig (collectionLoop S createDefaultConfig 0%nat) tr = Some s
    /\ point s = Returned
    /\ app s = 3%nat.
Proof.
  intros tr. eexists. split; [reflexivity|]. split; [reflexivity|].
  exact (proj1 (collection_loop_schedule S createDefaultConfig 0%nat tr _ eq_refl)).
Defined.

(** C9, as stated, fails: a tick that is waiting in the ticker's channel
    when the context is cancelled can still be taken by the [select], and a
    cycle is then started after the cancellation. *)
Lemma cycle_after_cancellation :
  exists s1 s2,
    run S createDefaultConfig (collectionLoop S createDefaultConfig 0%nat)
      [DelayElapsed; RecvAfter; TickerFires; Cancel] = Some s1
    /\ done s1 = true
    /\ app s1 = 1%nat
    /\ step S createDefaultConfig s1 RecvTick = Some s2
    /\ app s2 = 2%nat.
Proof. eexists _, _. repeat split. Qed.

(** The loop of a receiver: a cycle is one call of [collect].  With no
    initial delay the first cycle has run when the loop first blocks: the
    three answers of the network are used up and nothing was logged as an
    error. *)
Lemma receiver_first_cycle :
  let cycle := fun s => (collect scripted threeQueries (fun _ w => (None, w)) s).2 in
  let sys := collectionLoop cycle threeQueries
               (world [answered 200 "hundred"; answered 200 "many"; answered 200 "hundred"]) in
  point sys = AtTickSelect
  /\ ext (app sys) = []
  /\ List.filter (fun entry => String.eqb (level entry) "error") (log (app sys)) = [].
Proof. by vm_compute. Qed.

(** The ticker's channel holds one tick: of two ticks that fire while the
    loop is busy, one cycle comes. *)
Lemma coalesced_ticks :
  exists s,
    run S createDefaultConfig (collectionLoop S createDefaultConfig 0%nat)
      [DelayElapsed; RecvAfter; TickerFires; TickerFires; RecvTick] = Some s
    /\ app s = 2%nat
    /\ step S createDefaultConfig s RecvTick = None.
Proof. eexists. repeat split. Qed.

(** [TestConfigDefaults]' configuration is valid and has no collection
    interval: the loop panics in [time.NewTicker] before its first cycle. *)
Lemma nonpositive_interval_panics :
  (Validate bodies direct).2 = None
  /\ CollectionInterval validated = 0
  /\ point (collectionLoop S validated 0%nat) = Panicked
  /\ app (collectionLoop S validated 0%nat) = 0%nat.
Proof. repeat split. Qed.

(** * Further properties *)

(** ** Validation, further *)

Lemma validateQueries_accepts h qs i :
  validateQueries h i qs = None <-> Forall (usable h) qs.
Proof.
  revert i. induction qs as [|q qs IH]; intros i; cbn [validateQueries].
  - split; [constructor|done].
  - rewrite Forall_cons. unfold usable at 1.
    destruct (String.eqb_spec (Name q) "") as [Hn|Hn].
    { split; [done|]. by intros [[? _] _]. }
    destruct (Nat.eqb_spec (map_len h (Query q)) 0) as [Hl|Hl].
    { rewrite orb_true_r. split; [done|]. by intros [(_ & _ & ?) _]. }
    rewrite orb_false_r.
    destruct (Query q) as [l|] eqn:Hq.
    + rewrite IH. split; [by intros ?; repeat split|by intros [_ ?]].
    + by destruct Hl.
Qed.

(** What [Validate] returns as its error. *)
Lemma Validate_error h cfg :
  (Validate h cfg).2 =
  if String.eqb (Mode cfg) "" then
    Some "mode must be specified (direct or proxy)"
  else if negb (String.eqb (Mode cfg) "direct") && negb (String.eqb (Mode cfg) "proxy") then
    Some ("invalid mode '" ++ Mode cfg ++ "': must be 'direct' or 'proxy'")
  else if String.eqb (Mode cfg) "direct" && String.eqb (Endpoint cfg) "" then
    Some "endpoint must be specified in direct mode"
  else if String.eqb (Mode cfg) "proxy" && String.eqb (ProxyEndpoint cfg) "" then
    Some "proxy_endpoint must be specified in proxy mode"
  else if Nat.eqb (length (Queries cfg)) 0 then
    Some "at least one query must be configured"
  else
    match validateQueries h 0 (Queries cfg) with
    | Some e => Some e
    | None => if String.eqb (IndexPattern cfg) ""
              then Some "index_pattern must be specified" else None
    end.
Proof.
  unfold Validate.
  repeat match goal with
         | |- context [if ?b then (_, _) else _] => destruct b; [reflexivity|]
         end.
  destruct (validateQueries h 0 (Queries cfg)); [reflexivity|].
  by destruct (String.eqb (IndexPattern cfg) "").
Qed.

(** The store matters to [Validate] through the queries' bodies only. *)
Lemma Validate_queries_accepted h cfg :
  (Validate h cfg).2 = None -> validateQueries h 0 (Queries cfg) = None.
Proof.
  rewrite Validate_error.
  repeat match goal with
         | |- context [if ?b then Some _ else _] => destruct b; [done|]
         end.
  by destruct (validateQueries h 0 (Queries cfg)).
Qed.

Lemma Validate_error_store h h' cfg :
  validateQueries h' 0 (Queries cfg) = validateQueries h 0 (Queries cfg) ->
  (Validate h' cfg).2 = (Validate h cfg).2.
Proof. intros Hsame. by rewrite !Validate_error, Hsame. Qed.

Lemma Validate_result h cfg :
  Validate h cfg =
  match (Validate h cfg).2 with
  | Some e => (cfg, Some e)
  | None => (withDefaults cfg, None)
  end.
Proof.
  unfold Validate.
  repeat match goal with
         | |- context [if ?b then (_, Some _) else _] => destruct b; [reflexivity|]
         end.
  destruct (validateQueries h 0 (Queries cfg)); [reflexivity|].
  destruct (String.eqb (IndexPattern cfg) ""); [reflexivity|].
  cbn [snd]. f_equal. unfold withDefaults.
  destruct (String.eqb (TimeField cfg) "") eqn:Ht.
  - cbn [LookbackPeriod set_TimeField].
    destruct (LookbackPeriod cfg =? 0); [reflexivity|].
    by rewrite <- (set_LookbackPeriod_same (set_TimeField "@timestamp" cfg)) at 1.
  - rewrite set_TimeField_same.
    destruct (LookbackPeriod cfg =? 0); [reflexivity|].
    by rewrite set_LookbackPeriod_same.
Qed.

Lemma withDefaults_idempotent cfg : withDefaults (withDefaults cfg) = withDefaults cfg.
Proof.
  unfold withDefaults. cbn [LookbackPeriod TimeField set_LookbackPeriod set_TimeField].
  destruct (String.eqb (TimeField cfg) "") eqn:Ht;
    destruct (Z.eqb_spec (LookbackPeriod cfg) 0) as [Hl|Hl]; cbn;
    rewrite ?Ht; try reflexivity;
    destruct (Z.eqb_spec (LookbackPeriod cfg) 0); try done.
Qed.

Lemma validateQueries_first h good bad rest i :
  Forall (usable h) good -> ~ usable h bad ->
  validateQueries h i (good ++ bad :: rest) = Some (complaint (i + length good) bad).
Proof.
  intros Hgood Hbad. revert i.
  induction Hgood as [|q good (Hn & Hq & Hl) _ IH]; intros i.
  - rewrite app_nil_l. cbn [length validateQueries]. rewrite Nat.add_0_r. unfold complaint.
    destruct (String.eqb_spec (Name bad) "") as [Hn|Hn]; [reflexivity|].
    destruct (Query bad) as [l|] eqn:Hq; [|reflexivity].
    destruct (Nat.eqb_spec (map_len h (Some l)) 0) as [Hl|Hl]; [reflexivity|].
    destruct Hbad. unfold usable. by rewrite Hq.
  - rewrite <- app_comm_cons. cbn [length validateQueries].
    destruct (String.eqb_spec (Name q) ""); [done|].
    destruct (Query q); [|done].
    destruct (Nat.eqb_spec (map_len h (Some l)) 0); [done|].
    cbn [orb]. rewrite IH. do 2 f_equal. lia.
Qed.

(** X1.  [Validate] returns no error exactly when the mode is ["direct"]
    with an endpoint or ["proxy"] with a proxy endpoint, there is at least
    one query, every query has a name and a body that is neither nil nor
    empty, and the index pattern is not empty.  Timeout, interval, delay,
    credentials, time field and lookback period are not looked at. *)
Theorem Validate_accepts_exactly (h : store) (cfg : Config) :
  (Validate h cfg).2 = None <->
  (Mode cfg = "direct" /\ Endpoint cfg <> "" \/ Mode cfg = "proxy" /\ ProxyEndpoint cfg <> "")
  /\ Queries cfg <> []
  /\ Forall (fun query => Name query <> "" /\ Query query <> None
                          /\ map_len h (Query query) <> 0%nat) (Queries cfg)
  /\ IndexPattern cfg <> "".
Proof.
  rewrite Validate_error.
  change (Forall _ (Queries cfg)) with (Forall (usable h) (Queries cfg)).
  rewrite <- (validateQueries_accepts h (Queries cfg) 0).
  destruct (String.eqb_spec (Mode cfg) "") as [Hm|Hm].
  { split; [done|]. rewrite Hm. by intros [[[? _]|[? _]] _]. }
  destruct (String.eqb_spec (Mode cfg) "direct") as [Hd|Hd];
    destruct (String.eqb_spec (Mode cfg) "proxy") as [Hp|Hp]; cbn [negb andb];
    [congruence| | |split; [done|by intros [[[? _]|[? _]] _]]].
  - destruct (String.eqb_spec (Endpoint cfg) "") as [He|He].
    { split; [done|]. intros [[[_ ?]|[? _]] _]; congruence. }
    destruct (Nat.eqb_spec (length (Queries cfg)) 0) as [Hq|Hq].
    { split; [done|]. intros (_ & Hne & _). by destruct (Queries cfg). }
    destruct (validateQueries h 0 (Queries cfg)); [split; [done|by intros (_ & _ & ? & _)]|].
    destruct (String.eqb_spec (IndexPattern cfg) "") as [Hi|Hi];
      [split; [done|by intros (_ & _ & _ & ?)]|].
    split; [|done]. intros _. repeat split; try done; [by left|].
    intros Hnil. by rewrite Hnil in Hq.
  - destruct (String.eqb_spec (ProxyEndpoint cfg) "") as [He|He].
    { split; [done|]. intros [[[? _]|[_ ?]] _]; congruence. }
    destruct (Nat.eqb_spec (length (Queries cfg)) 0) as [Hq|Hq].
    { split; [done|]. intros (_ & Hne & _). by destruct (Queries cfg). }
    destruct (validateQueries h 0 (Queries cfg)); [split; [done|by intros (_ & _ & ? & _)]|].
    destruct (String.eqb_spec (IndexPattern cfg) "") as [Hi|Hi];
      [split; [done|by intros (_ & _ & _ & ?)]|].
    split; [|done]. intros _. repeat split; try done; [by right|].
    intros Hnil. by rewrite Hnil in Hq.
Qed.

(** X2.  Validating twice is validating once: a second call on the
    configuration the first call left behind returns the same error, or
    none, and leaves that configuration as it is. *)
Theorem Validate_idempotent (h : store) (cfg : Config) :
  Validate h (Validate h cfg).1 = Validate h cfg.
Proof.
  rewrite (Validate_result h cfg).
  destruct (Validate h cfg).2 as [e|] eqn:He; cbn [fst].
  - by rewrite Validate_result, He.
  - rewrite Validate_result.
    assert (Hsame : (Validate h (withDefaults cfg)).2 = (Validate h cfg).2)
      by (by rewrite !Validate_error).
    by rewrite Hsame, He, withDefaults_idempotent.
Qed.

(** X3.  The queries are checked in configured order, a query's name
    before its body.  When mode and endpoint are in order, the error names
    the first query that has no name or no body by its zero-based index, and
    the configuration is as it was. *)
Theorem Validate_names_first_unusable_query (h : store) (cfg : Config)
    (good : list QueryConfig) (bad : QueryConfig) (rest : list QueryConfig)
    (Hmode : Mode cfg = "direct" /\ Endpoint cfg <> ""
             \/ Mode cfg = "proxy" /\ ProxyEndpoint cfg <> "")
    (Hqueries : Queries cfg = (good ++ bad :: rest)%list)
    (Hgood : Forall (fun query => Name query <> "" /\ Query query <> None
                                  /\ map_len h (Query query) <> 0%nat) good)
    (Hbad : Name bad = "" \/ Query bad = None \/ map_len h (Query bad) = 0%nat) :
  Validate h cfg =
    (cfg, Some (if String.eqb (Name bad) ""
                then "query[" ++ Fmt.itoa (Z.of_nat (length good))
                       ++ "]: name must be specified"
                else "query[" ++ Fmt.itoa (Z.of_nat (length good)) ++ "] ("
                       ++ Name bad ++ "): query body must be specified")).
Proof.
  assert (Herr : (Validate h cfg).2 = Some (complaint (length good) bad)).
  { rewrite Validate_error, Hqueries.
    rewrite (validateQueries_first h good bad rest 0 Hgood)
      by (intros (? & ? & ?); destruct Hbad as [?|[?|?]]; done).
    rewrite length_app. cbn [length]. rewrite Nat.add_succ_r. cbn [Nat.eqb].
    destruct Hmode as [[Hm He]|[Hm He]]; rewrite Hm; cbn [String.eqb Ascii.eqb Bool.eqb negb andb].
    + by destruct (String.eqb_spec (Endpoint cfg) "").
    + by destruct (String.eqb_spec (ProxyEndpoint cfg) ""). }
  rewrite Validate_result, Herr. reflexivity.
Qed.

Lemma Validate_names_second_query :
  Validate bodies
    {| Endpoint := "https://localhost:9200"; Timeout := 0; CollectionInterval := 0;
       InitialDelay := 0; Mode := "direct"; Username := ""; Password := "";
       ProxyEndpoint := "";
       Queries := [errorCount;
                   {| Name := "recent"; Description := ""; Query := Some 2%positive;
                      MetricName := ""; Labels := ∅ |};
                   {| Name := ""; Description := ""; Query := None;
                      MetricName := ""; Labels := ∅ |}];
       IndexPattern := ""; TimeField := ""; LookbackPeriod := 0 |}
  = ({| Endpoint := "https://localhost:9200"; Timeout := 0; CollectionInterval := 0;
        InitialDelay := 0; Mode := "direct"; Username := ""; Password := "";
        ProxyEndpoint := "";
        Queries := [errorCount;
                    {| Name := "recent"; Description := ""; Query := Some 2%positive;
                       MetricName := ""; Labels := ∅ |};
                    {| Name := ""; Description := ""; Query := None;
                       MetricName := ""; Labels := ∅ |}];
        IndexPattern := ""; TimeField := ""; LookbackPeriod := 0 |},
     Some "query[1] (recent): query body must be specified").
Proof.
  apply (Validate_names_first_unusable_query bodies _ [errorCount]
           {| Name := "recent"; Description := ""; Query := Some 2%positive;
              MetricName := ""; Labels := ∅ |}
           [{| Name := ""; Description := ""; Query := None;
               MetricName := ""; Labels := ∅ |}]).
  - left. split; [reflexivity|discriminate].
  - reflexivity.
  - repeat constructor; [discriminate|discriminate|by vm_compute].
  - right. right. by vm_compute.
Defined.

(** X4.  The configuration of [createDefaultConfig] is rejected as it
    stands (it has no endpoint).  Once it is given an endpoint, an index
    pattern and a non-empty list of queries that each have a name and a
    body, [Validate] accepts it and changes nothing: the factory's time
    field and lookback period are the ones [Validate] would fill in. *)
Theorem default_config_completed_is_a_fixed_point (h : store)
    (endpoint indexPattern : string) (queries : list QueryConfig)
    (Hendpoint : endpoint <> "") (Hindex : indexPattern <> "")
    (Hqueries : queries <> [])
    (Husable : Forall (fun query => Name query <> "" /\ Query query <> None
                                    /\ map_len h (Query query) <> 0%nat) queries) :
  let cfg := {| Endpoint := endpoint;
                Timeout := Timeout createDefaultConfig;
                CollectionInterval := CollectionInterval createDefaultConfig;
                InitialDelay := InitialDelay createDefaultConfig;
                Mode := Mode createDefaultConfig;
                Username := Username createDefaultConfig;
                Password := Password createDefaultConfig;
                ProxyEndpoint := ProxyEndpoint createDefaultConfig;
                Queries := queries;
                IndexPattern := indexPattern;
                TimeField := TimeField createDefaultConfig;
                LookbackPeriod := LookbackPeriod createDefaultConfig |} in
  Validate h cfg = (cfg, None)
  /\ Validate h createDefaultConfig =
       (createDefaultConfig, Some "endpoint must be specified in direct mode").
Proof.
  intros cfg. split; [|reflexivity].
  assert (Hok : (Validate h cfg).2 = None).
  { rewrite Validate_error. cbn.
    destruct (String.eqb_spec endpoint ""); [done|].
    destruct queries as [|query queries]; [done|]. cbn [length Nat.eqb].
    rewrite (proj2 (validateQueries_accepts h (query :: queries) 0) Husable).
    by destruct (String.eqb_spec indexPattern ""). }
  by rewrite Validate_result, Hok.
Qed.

Lemma default_config_completed_sample :
  Validate bodies
    {| Endpoint := "https://localhost:9200"; Timeout := 30 * Second;
       CollectionInterval := 60 * Second; InitialDelay := Second; Mode := "direct";
       Username := ""; Password := ""; ProxyEndpoint := "";
       Queries := [errorCount]; IndexPattern := "logs-*";
       TimeField := "@timestamp"; LookbackPeriod := 5 * Minute |}
  = ({| Endpoint := "https://localhost:9200"; Timeout := 30 * Second;
        CollectionInterval := 60 * Second; InitialDelay := Second; Mode := "direct";
        Username := ""; Password := ""; ProxyEndpoint := "";
        Queries := [errorCount]; IndexPattern := "logs-*";
        TimeField := "@timestamp"; LookbackPeriod := 5 * Minute |}, None).
Proof.
  refine (proj1 (default_config_completed_is_a_fixed_point bodies
                   "https://localhost:9200" "logs-*" [errorCount] _ _ _ _)).
  - discriminate.
  - discriminate.
  - discriminate.
  - repeat constructor; [discriminate|discriminate|by vm_compute].
Defined.

(** X5.  [newScraperInstance] returns a scraper exactly when [Validate]
    accepts the configuration and the TLS settings load; the scraper and
    its client then hold the configuration with the defaults filled in, and
    the client's timeout is the configured one.  An error of [Validate]
    comes back behind ["invalid configuration: "] with the configuration
    untouched.  When the TLS settings do not load, the error comes back
    behind ["failed to create client: failed to load TLS config: "], and
    the caller's configuration has the defaults filled in all the same. *)
Theorem newScraperInstance_outcomes {T : Type} (LoadTLSConfig : Config -> result T)
    (h : store) (cfg : Config) :
  match newScraperInstance LoadTLSConfig h cfg with
  | (cfg', Ok s) =>
      (Validate h cfg).2 = None
      /\ cfg' = withDefaults cfg
      /\ scraper_config s = cfg'
      /\ client_config (scraper_client s) = cfg'
      /\ httpClient_Timeout (scraper_client s) = Timeout cfg
      /\ LoadTLSConfig cfg' = Ok (httpClient_TLSClientConfig (scraper_client s))
  | (cfg', Err e) =>
      (exists invalid,
         (Validate h cfg).2 = Some invalid
         /\ e = "invalid configuration: " ++ invalid
         /\ cfg' = cfg)
      \/ (exists unloadable,
            (Validate h cfg).2 = None
            /\ LoadTLSConfig (withDefaults cfg) = Err unloadable
            /\ e = "failed to create client: failed to load TLS config: " ++ unloadable
            /\ cfg' = withDefaults cfg)
  end.
Proof.
  unfold newScraperInstance. rewrite (Validate_result h cfg).
  destruct (Validate h cfg).2 as [invalid|]; [left; by exists invalid|].
  unfold NewOpenSearchClient.
  destruct (LoadTLSConfig (withDefaults cfg)) as [tlsConfig|unloadable] eqn:Hload.
  - by repeat split.
  - right. by exists unloadable.
Qed.

(** ** The client, further *)

(** The credentials of the tests, and groups of one and two last bytes. *)
Lemma basicAuth_samples :
  basicAuth "admin" "admin" = "YWRtaW46YWRtaW4="
  /\ basicAuth "a" "b" = "YTpi"
  /\ basicAuth "ab" "c" = "YWI6Yw==".
Proof. by vm_compute. Qed.

(** X6.  Every request [ExecuteQuery] gets as far as sending is a POST to
    [<endpoint>/<index pattern>/_search], the endpoint being the one of
    the mode; its body is the rendering of the time-wrapped query with
    [size] 10000 and no [aggs]; and the header map it is handed to
    [httpClient.Do] with holds [Content-Type: application/json] and,
    exactly when the mode is ["direct"] and both user name and password
    are set, [Authorization: Basic] with the base64 encoding of
    [<username>:<password>], and nothing else.  So a request in proxy mode
    carries no [Authorization] header. *)
Theorem search_request_shape {W : Type} (E : Env W) (config : Config)
    (query : QueryConfig) (s s1 : World W) (req : Request)
    (Hbuilt : buildRequest E config query s = (Ok req, s1)) :
  Method req = "POST"
  /\ URL req = GetEndpoint config ++ "/" ++ IndexPattern config ++ "/_search"
  /\ json_Marshal E (heap s1)
       {| req_Query := (addTimeRangeFilter E config (Query query) s).1;
          req_Size := 10000; req_Aggs := None |} = Ok (Body req)
  /\ Header req =
       (if UsesBasicAuth config
        then {[ "Content-Type" := "application/json";
                "Authorization" :=
                  "Basic " ++ Base64.EncodeToString
                                (Username config ++ ":" ++ Password config) ]}
        else {[ "Content-Type" := "application/json" ]})
  /\ (Mode config <> "direct" \/ Username config = "" \/ Password config = "" ->
      Header req !! "Authorization" = None).
Proof.
  unfold buildRequest, bind in Hbuilt.
  destruct (addTimeRangeFilter E config (Query query) s) as [wrapped s0] eqn:Hwrap.
  cbn [fst].
  destruct (json_Marshal E (heap s0) _) as [reqBody|e] eqn:Hbody; [|discriminate].
  unfold logf in Hbuilt.
  destruct (http_NewRequest E "POST" _) as [e|]; [discriminate|].
  assert (Hswap : <["Authorization" := "Basic " ++ basicAuth (Username config)
                                                    (Password config)]>
                    (<["Content-Type" := "application/json"]> (∅ : gmap string string))
                  = {[ "Content-Type" := "application/json";
                       "Authorization" :=
                         "Basic " ++ Base64.EncodeToString
                                       (Username config ++ ":" ++ Password config) ]}).
  { unfold basicAuth. rewrite insert_insert_ne by done. by rewrite insert_empty. }
  destruct (UsesBasicAuth config) eqn:Huses; cbn in Hbuilt;
    injection Hbuilt as <- <-; cbn [Method URL Header Body SetHeader SetBasicAuth heap].
  - split; [done|]. split; [done|]. split; [done|]. split; [exact Hswap|].
    intros Hnot. unfold UsesBasicAuth in Huses.
    destruct (String.eqb_spec (Mode config) "direct"); [|done].
    destruct (String.eqb_spec (Username config) ""); [done|].
    destruct (String.eqb_spec (Password config) ""); [done|].
    destruct Hnot as [?|[?|?]]; done.
  - split; [done|]. split; [done|]. split; [done|].
    split; [by rewrite insert_empty|]. intros _.
    rewrite lookup_insert_ne by done. apply lookup_empty.
Qed.

Lemma search_request_sample :
  exists req s1,
    buildRequest scripted threeQueries errorCount (world []) = (Ok req, s1)
    /\ URL req = "https://localhost:9200/logs-*/_search"
    /\ Header req = {[ "Content-Type" := "application/json";
                       "Authorization" := "Basic YWRtaW46YWRtaW4=" ]}.
Proof.
  pose (built := buildRequest scripted threeQueries errorCount (world [])).
  assert (Hreq : exists req, built.1 = Ok req) by (eexists; vm_compute; reflexivity).
  destruct Hreq as [req Hreq].
  assert (Hbuilt : buildRequest scripted threeQueries errorCount (world [])
                   = (Ok req, built.2)).
  { rewrite <- Hreq. apply surjective_pairing. }
  exists req, built.2. split; [exact Hbuilt|].
  pose proof (search_request_shape scripted threeQueries errorCount _ _ req Hbuilt)
    as (_ & Hurl & _ & Hheader & _).
  split; [exact Hurl|exact Hheader].
Defined.

(** X7.  [ExecuteQuery] returns a response exactly when the request could
    be built and sent, the whole body could be read, the status is 200 and
    the body decodes; the response is then the decoded one. *)
Theorem ExecuteQuery_succeeds_exactly {W : Type} (E : Env W) (config : Config)
    (query : QueryConfig) (s : World W) (searchResp : SearchResponse) :
  (ExecuteQuery E config query s).1 = Ok searchResp <->
  exists req s1 resp w body,
    buildRequest E config query s = (Ok req, s1)
    /\ http_Do E req (ext s1) = (Ok resp, w)
    /\ ReadAll resp = (body, None)
    /\ StatusCode resp = 200
    /\ json_Unmarshal E body = Ok searchResp.
Proof.
  unfold ExecuteQuery, readResponse, bind, outside, logf, ret, StatusOK.
  destruct (buildRequest E config query s) as [[req|e] s1]; cbn [fst];
    [|split; [done|by intros (? & ? & ? & ? & ? & [=] & _)]].
  destruct (http_Do E req (ext s1)) as [[resp|e] w] eqn:Hdo; cbn [fst];
    [|split; [done|intros (? & ? & ? & ? & ? & [= <- <-] & Hd & _); congruence]].
  destruct (ReadAll resp) as [body [e|]] eqn:Hread; cbn [fst].
  { split; [done|]. intros (? & ? & ? & ? & ? & [= <- <-] & Hd & Hr & _).
    rewrite Hdo in Hd. injection Hd as <- <-. congruence. }
  destruct (Z.eqb_spec (StatusCode resp) 200) as [Hst|Hst]; cbn [negb fst].
  - destruct (json_Unmarshal E body) as [r|e] eqn:Hdec; cbn [fst].
    + split.
      * intros [= <-]. by exists req, s1, resp, w, body.
      * intros (? & ? & ? & ? & ? & [= <- <-] & Hd & Hr & _ & Hu).
        rewrite Hdo in Hd. injection Hd as <- <-. congruence.
    + split; [done|].
      intros (? & ? & ? & ? & ? & [= <- <-] & Hd & Hr & _ & Hu).
      rewrite Hdo in Hd. injection Hd as <- <-. congruence.
  - split; [done|].
    intros (? & ? & ? & ? & ? & [= <- <-] & Hd & Hr & Hs & _).
    rewrite Hdo in Hd. injection Hd as <- <-. congruence.
Qed.

(** X8.  Every error of [ExecuteQuery] begins with one of six texts, one
    for each step that can fail: rendering the query, creating the request,
    sending it, reading the body, the status, decoding the body.  A failure
    of the transport is always reported as ["failed to execute request: "]
    followed by the transport's error. *)
Theorem ExecuteQuery_error_kinds {W : Type} (E : Env W) (config : Config)
    (query : QueryConfig) (s : World W) :
  match (ExecuteQuery E config query s).1 with
  | Ok _ => True
  | Err e =>
      exists kind detail,
        e = kind ++ detail
        /\ In kind ["failed to marshal query: "; "failed to create request: ";
                    "failed to execute request: "; "failed to read response: ";
                    "unexpected status code "; "failed to unmarshal response: "]
  end
  /\ (forall req s1 e w,
        buildRequest E config query s = (Ok req, s1) ->
        http_Do E req (ext s1) = (Err e, w) ->
        (ExecuteQuery E config query s).1 = Err ("failed to execute request: " ++ e)).
Proof.
  split.
  - unfold ExecuteQuery, bind.
    destruct (buildRequest E config query s) as [[req|e] s1] eqn:Hbuilt; cbn [fst].
    + unfold outside. destruct (http_Do E req (ext s1)) as [[resp|e] w]; cbn [fst];
        [|eexists _, _; split; [reflexivity|]; simpl; tauto].
      unfold readResponse, bind, logf, ret, StatusOK.
      destruct (ReadAll resp) as [body [e|]]; cbn [fst];
        [eexists _, _; split; [reflexivity|]; simpl; tauto|].
      destruct (negb _); cbn [fst]; [eexists _, _; split; [reflexivity|]; simpl; tauto|].
      destruct (json_Unmarshal E body); cbn [fst]; [done|].
      eexists _, _; split; [reflexivity|]; simpl; tauto.
    + unfold buildRequest, bind in Hbuilt.
      destruct (addTimeRangeFilter E config (Query query) s) as [wrapped s0].
      destruct (json_Marshal E (heap s0) _);
        [|injection Hbuilt as <- <-; eexists _, _; split; [reflexivity|]; simpl; tauto].
      unfold logf in Hbuilt.
      destruct (http_NewRequest E "POST" _);
        [injection Hbuilt as <- <-; eexists _, _; split; [reflexivity|]; simpl; tauto|].
      by destruct (UsesBasicAuth config).
  - intros req s1 e w Hbuilt Hdo. unfold ExecuteQuery, bind, outside.
    by rewrite Hbuilt, Hdo.
Qed.

Lemma addTimeRangeFilter_ext {W : Type} (E : Env W) config query (s : World W) :
  ext (addTimeRangeFilter E config query s).2 = (time_Now E (ext s)).2.
Proof.
  unfold addTimeRangeFilter, bind, outside, new_map, ret.
  by destruct (time_Now E (ext s)).
Qed.

Lemma buildRequest_ext {W : Type} (E : Env W) config query (s : World W) :
  ext (buildRequest E config query s).2 = (time_Now E (ext s)).2.
Proof.
  unfold buildRequest, bind.
  pose proof (addTimeRangeFilter_ext E config (Query query) s) as Hext.
  destruct (addTimeRangeFilter E config (Query query) s) as [wrapped s0].
  cbn [snd] in Hext. rewrite <- Hext.
  destruct (json_Marshal E (heap s0) _); [|done].
  unfold logf, ret. destruct (http_NewRequest E "POST" _); [done|].
  by destruct (UsesBasicAuth config).
Qed.

(** X9.  [ExecuteQuery] reads the clock once and calls [httpClient.Do] at
    most once: what lies outside the process is, after the call, as that
    one [Do] left it, or, when no request could be built, as the clock
    reading left it.  A call that failed is not repeated. *)
Theorem ExecuteQuery_sends_at_most_one_request {W : Type} (E : Env W) (config : Config)
    (query : QueryConfig) (s : World W) :
  let after := ext (ExecuteQuery E config query s).2 in
  let read := (time_Now E (ext s)).2 in
  match (buildRequest E config query s).1 with
  | Ok req => after = (http_Do E req read).2
  | Err _ => after = read
  end.
Proof.
  intros after read. subst after. unfold ExecuteQuery, bind.
  pose proof (buildRequest_ext E config query s) as Hext. fold read in Hext.
  destruct (buildRequest E config query s) as [[req|e] s1]; cbn [fst snd] in *;
    [|done].
  unfold outside. rewrite Hext.
  destruct (http_Do E req read) as [[resp|e] w]; cbn [snd]; [|done].
  unfold readResponse, bind, logf, ret.
  destruct (ReadAll resp) as [body [e|]]; [done|].
  destruct (negb _); [done|]. by destruct (json_Unmarshal E body).
Qed.

(** X10.  [Ping] sends a GET to [<endpoint>/_cluster/health], with
    basic credentials under the same condition as a search, and returns
    no error exactly when the request could be created and was answered
    with status 200.  Any other status gives ["ping failed with status
    <status>: <body>"], the body being whatever could be read, and nothing
    is logged; a failure of the transport gives ["failed to ping
    OpenSearch: "] followed by its error. *)
Theorem Ping_succeeds_exactly {W : Type} (E : Env W) (config : Config) (s : World W) :
  let url := GetEndpoint config ++ "/_cluster/health" in
  let req := {| Method := "GET"; URL := url; Body := "";
                Header := if UsesBasicAuth config
                          then {[ "Authorization" :=
                                    "Basic " ++ Base64.EncodeToString
                                                  (Username config ++ ":"
                                                     ++ Password config) ]}
                          else ∅ |} in
  ((Ping E config s).1 = None <->
   http_NewRequest E "GET" url = None
   /\ exists resp w, http_Do E req (ext s) = (Ok resp, w) /\ StatusCode resp = 200)
  /\ (forall resp w,
        http_NewRequest E "GET" url = None ->
        http_Do E req (ext s) = (Ok resp, w) ->
        StatusCode resp <> 200 ->
        Ping E config s =
          (Some ("ping failed with status " ++ Fmt.itoa (StatusCode resp) ++ ": "
                 ++ (ReadAll resp).1),
           {| heap := heap s; log := log s; ext := w |}))
  /\ (forall e w,
        http_NewRequest E "GET" url = None ->
        http_Do E req (ext s) = (Err e, w) ->
        (Ping E config s).1 = Some ("failed to ping OpenSearch: " ++ e)).
Proof.
  intros url req.
  assert (Hreq : (if UsesBasicAuth config
                  then SetBasicAuth (Username config) (Password config)
                         {| Method := "GET"; URL := url; Body := ""; Header := ∅ |}
                  else {| Method := "GET"; URL := url; Body := ""; Header := ∅ |})
                 = req).
  { unfold req, SetBasicAuth, SetHeader, basicAuth.
    destruct (UsesBasicAuth config); [|done]. cbn [Method URL Body Header].
    by rewrite insert_empty. }
  unfold Ping. fold url. rewrite Hreq. unfold bind, outside, logf, ret, StatusOK.
  destruct (http_NewRequest E "GET" url) as [e|]; cbn [fst].
  { split; [split; [done|by intros [? _]]|]. split; intros; done. }
  destruct (http_Do E req (ext s)) as [[resp|e] w]; cbn [fst].
  - destruct (Z.eqb_spec (StatusCode resp) 200) as [Hst|Hst]; cbn [negb fst].
    + split; [split; [intros _; split; [done|by exists resp, w]|done]|].
      split; [|intros; done]. intros ? ? _ [= <- <-] ?. done.
    + split; [split; [done|]|].
      * intros (_ & ? & ? & [= <- <-] & ?). done.
      * split; [|intros; done]. by intros ? ? _ [= <- <-] _.
  - split; [split; [done|by intros (_ & ? & ? & [=] & _)]|].
    split; [intros; done|]. by intros ? ? _ [= <- <-].
Qed.

(** ** Decimal renderings *)

Lemma itoa_inj z z' : Fmt.itoa z = Fmt.itoa z' -> z = z'.
Proof.
  unfold Fmt.itoa. intros Heq. apply DecimalZ.to_int_inj.
  assert (Hparse : forall n, NilZero.int_of_string (NilZero.string_of_int (Z.to_int n))
                             = Some (Z.to_int n)).
  { intros n. apply NilZero.isi; destruct n; try discriminate;
      cbn; intros [= Hnil]; by apply DecimalPos.Unsigned.to_uint_nonnil in Hnil. }
  pose proof (Hparse z) as Hz. rewrite Heq, Hparse in Hz. by injection Hz.
Qed.

Lemma itoa_opp z : 0 < z -> Fmt.itoa (- z) = "-" ++ Fmt.itoa z.
Proof. destruct z; try lia. reflexivity. Qed.

Lemma append_inj_l (a b c : string) : a ++ b = a ++ c -> b = c.
Proof.
  induction a as [|x a IH]; [done|]. rewrite !append_cons. intros [= H]. by apply IH.
Qed.

(** ** Bucket keys, further *)

Lemma round_half_even_whole m e n s :
  to_int (S754_finite s m e) = Some n ->
  0 < round_half_even m e /\ n = (if s then -1 else 1) * round_half_even m e.
Proof.
  unfold to_int, round_half_even.
  destruct (Z.leb_spec 0 e) as [He|He].
  - intros [= <-]. split; [|done]. assert (0 < 2 ^ e) by (by apply Z.pow_pos_nonneg). nia.
  - assert (Hd : 0 < 2 ^ (- e)) by (apply Z.pow_pos_nonneg; lia).
    destruct (Z.eqb_spec (Z.pos m mod 2 ^ (- e)) 0) as [Hr|Hr]; [|done].
    intros [= <-]. rewrite Hr. change (2 * 0) with 0.
    destruct (Z.compare_spec 0 (2 ^ (- e))) as [?|_|?]; try lia.
    split; [|done].
    pose proof (Z.div_mod (Z.pos m) (2 ^ (- e)) ltac:(lia)) as Hdm. rewrite Hr in Hdm.
    assert (0 <= Z.pos m / 2 ^ (- e)) by (apply Z.div_pos; lia). nia.
Qed.

(** X11.  A numeric bucket key that is a whole number is rendered as the
    decimal digits of that number, with a minus sign if it is negative:
    the key 200 gives "200".  (Negative zero gives "-0".) *)
Theorem whole_number_key_is_its_decimal (i : nat) (bucketMap : list (string * json))
    (keyVal : float64) (n : Z)
    (Hkey : lookup_field "key" bucketMap = Some (JNum keyVal))
    (Hwhole : to_int keyVal = Some n)
    (Hzero : keyVal <> S754_zero true) :
  bucketKey i bucketMap = Fmt.itoa n.
Proof.
  unfold bucketKey, field_string, field_float64. rewrite Hkey.
  destruct keyVal as [[]| | |s m e]; try discriminate; try done.
  - by injection Hwhole as <-.
  - destruct (round_half_even_whole m e n s Hwhole) as [Hpos ->].
    cbn [fmt_f0]. destruct s.
    + replace (-1 * round_half_even m e) with (- round_half_even m e) by lia.
      by rewrite itoa_opp.
    + by rewrite Z.mul_1_l.
Qed.

Lemma whole_number_key_200 :
  bucketKey 0 [("key", JNum (of_int 200)); ("doc_count", JNum (of_int 7))] = "200".
Proof.
  apply (whole_number_key_is_its_decimal 0 _ (of_int 200) 200).
  - reflexivity.
  - by vm_compute.
  - discriminate.
Defined.

(** X12.  Buckets whose [key] is missing, or neither a string nor a
    number, get the key [bucket_<index>], and two of them at different
    indices never get the same key. *)
Theorem keyless_buckets_get_distinct_keys (i j : nat)
    (bucketMap bucketMap' : list (string * json))
    (Hi : field_string "key" bucketMap = None /\ field_float64 "key" bucketMap = None)
    (Hj : field_string "key" bucketMap' = None /\ field_float64 "key" bucketMap' = None)
    (Hij : i <> j) :
  bucketKey i bucketMap = "bucket_" ++ Fmt.itoa (Z.of_nat i)
  /\ bucketKey i bucketMap <> bucketKey j bucketMap'.
Proof.
  unfold bucketKey.
  rewrite (proj1 Hi), (proj2 Hi), (proj1 Hj), (proj2 Hj). split; [done|].
  intros Hsame. apply append_inj_l, itoa_inj in Hsame. lia.
Qed.

Lemma keyless_buckets_sample :
  String.eqb (bucketKey 3 [("doc_count", JNum (of_int 4))]) (bucketKey 12 [("key", JNull)])
  = false.
Proof.
  apply String.eqb_neq.
  apply (keyless_buckets_get_distinct_keys 3 12
           [("doc_count", JNum (of_int 4))] [("key", JNull)]
           (conj eq_refl eq_refl) (conj eq_refl eq_refl)).
  lia.
Defined.

(** ** Names and attributes *)

Lemma has_prefix_weaken p base rest :
  Fmt.has_prefix p base = true -> Fmt.has_prefix p (base ++ rest) = true.
Proof.
  revert base. induction p as [|x p IH]; intros base; [by destruct base|].
  destruct base as [|y base]; [done|]. rewrite append_cons. cbn.
  intros [-> Hp]%andb_prop. cbn. by apply IH.
Qed.

Lemma has_prefix_refl p : Fmt.has_prefix p p = true.
Proof. induction p as [|x p IH]; [done|]. cbn. by rewrite Ascii.eqb_refl. Qed.

Section WalkMore.
Variable queryConfig : QueryConfig.
Variable timestamp : Z.

Lemma processAggregation_names p v :
  forall base aggName,
    Fmt.has_prefix p base = true ->
    Forall (fun m => Fmt.has_prefix p (metric_Name m) = true)
           (processAggregation queryConfig timestamp base aggName v []).
Proof.
  remember (json_size v) as n eqn:Hn. revert v Hn.
  induction (lt_wf n) as [n _ IH]. intros v -> base aggName Hbase.
  destruct v as [| | | | |aggMap]; try by constructor.
  rewrite processAggregation_emits. rewrite app_nil_l.
  repeat apply Forall_app_2.
  - destruct (field_float64 "value" aggMap); repeat constructor.
    cbn. by apply has_prefix_weaken.
  - destruct (field_float64 "doc_count" aggMap); repeat constructor.
    cbn. by apply has_prefix_weaken.
  - destruct (field_slice "buckets" aggMap) as [buckets|] eqn:Hb; [|constructor].
    rewrite processBuckets_emits, app_nil_l. apply Forall_concat_imap.
    intros i bucket Hin. destruct bucket as [| | | | |bucketMap]; try by constructor.
    rewrite processBucket_emits, app_nil_l. apply Forall_app_2.
    + destruct (field_float64 "doc_count" bucketMap); repeat constructor.
      cbn. by apply has_prefix_weaken.
    + apply List.Forall_flat_map, List.Forall_forall. intros [k v] Hkv. cbn [fst snd].
      destruct (nestedField k); [|constructor].
      eapply IH; [|reflexivity|by apply has_prefix_weaken].
      pose proof (field_slice_size _ _ _ _ Hb Hin).
      pose proof (json_size_entry _ _ _ Hkv). lia.
Qed.

Lemma recordResponse_emits resp :
  recordResponse queryConfig timestamp resp [] =
  let metricName := if String.eqb (MetricName queryConfig) ""
                    then "opensearch.query." ++ Name queryConfig
                    else MetricName queryConfig in
  ([gaugeMetric queryConfig timestamp (metricName ++ ".count")
      "Number of documents matching the query" "hits"
      (of_int (Value (HitsTotal_ (Hits resp))));
    gaugeMetric queryConfig timestamp (metricName ++ ".took_ms")
      "Query execution time in milliseconds" "ms" (of_int (Took resp));
    gaugeMetric queryConfig timestamp (metricName ++ ".shards.total")
      "Total number of shards queried" "shards" (of_int (Total (Shards resp)));
    gaugeMetric queryConfig timestamp (metricName ++ ".shards.successful")
      "Number of successful shards" "shards" (of_int (Successful (Shards resp)));
    gaugeMetric queryConfig timestamp (metricName ++ ".shards.failed")
      "Number of failed shards" "shards" (of_int (Failed (Shards resp)))]
   ++ flat_map (fun kv => processAggregation queryConfig timestamp metricName kv.1 kv.2 [])
        (default [] (Aggregations resp)))%list.
Proof.
  unfold recordResponse, recordGaugeMetric. cbn zeta.
  destruct (Aggregations resp) as [[|a aggregations]|]; cbn [default from_option id];
    try reflexivity.
  cbn [length Nat.ltb Nat.leb]. by rewrite processAggregations_emits.
Qed.

End WalkMore.

(** X13.  The name of every metric recorded for a response, summary or
    aggregation, at whatever depth of the aggregation tree, begins with the
    metric prefix of the query: its [MetricName], or
    [opensearch.query.<name>] if that is empty. *)
Theorem metric_names_carry_the_prefix (queryConfig : QueryConfig) (timestamp : Z)
    (resp : SearchResponse) :
  let metricName := if String.eqb (MetricName queryConfig) ""
                    then "opensearch.query." ++ Name queryConfig
                    else MetricName queryConfig in
  Forall (fun m => Fmt.has_prefix metricName (metric_Name m) = true)
         (recordResponse queryConfig timestamp resp []).
Proof.
  intros metricName. rewrite recordResponse_emits. cbn zeta. fold metricName.
  apply Forall_app_2.
  - repeat constructor; cbn; apply has_prefix_weaken, has_prefix_refl.
  - apply List.Forall_flat_map, List.Forall_forall. intros [k v] _.
    apply processAggregation_names, has_prefix_refl.
Qed.

(** X14.  The attributes of a metric appended by [recordGaugeMetric] are
    the labels of the query, [query.name] and, when the description is not
    empty, [query.description], and nothing else.  A label of the query
    always keeps its value, also when it is called [query.name] or
    [query.description]. *)
Theorem gauge_attributes_exactly (queryConfig : QueryConfig) (timestamp : Z)
    (name description unit : string) (value : float64) :
  let attrs := dp_Attributes (gaugeMetric queryConfig timestamp name description unit value) in
  (forall k v, Labels queryConfig !! k = Some v -> attrs !! k = Some v)
  /\ (Labels queryConfig !! "query.name" = None ->
      attrs !! "query.name" = Some (Name queryConfig))
  /\ (Labels queryConfig !! "query.description" = None ->
      attrs !! "query.description" =
        if String.eqb (Description queryConfig) "" then None
        else Some (Description queryConfig))
  /\ (forall k, k <> "query.name" -> k <> "query.description" ->
                attrs !! k = Labels queryConfig !! k).
Proof.
  cbn. rewrite putLabels_union. repeat split.
  - intros k v Hk. by apply lookup_union_Some_l.
  - intros Hk. rewrite lookup_union_r by done.
    destruct (String.eqb (Description queryConfig) ""); cbn; unfold PutStr.
    + by rewrite lookup_insert_eq.
    + rewrite lookup_insert_ne by done. by rewrite lookup_insert_eq.
  - intros Hk. rewrite lookup_union_r by done.
    destruct (String.eqb (Description queryConfig) ""); cbn; unfold PutStr.
    + by rewrite lookup_insert_ne.
    + by rewrite lookup_insert_eq.
  - intros k Hn Hd. rewrite lookup_union.
    destruct (String.eqb (Description queryConfig) ""); cbn; unfold PutStr;
      rewrite ?lookup_insert_ne by done; rewrite lookup_empty;
      by destruct (Labels queryConfig !! k).
Qed.

(** ** The order in which Go visits a map *)

Lemma lookup_field_elem k v (m : list (string * json)) :
  NoDup (map fst m) -> (lookup_field k m = Some v <-> In (k, v) m).
Proof.
  induction m as [|[k' v'] m IH]; cbn [map fst lookup_field]; [by split|].
  intros [Hk' Hm]%NoDup_cons. specialize (IH Hm).
  destruct (String.eqb_spec k' k) as [->|Hne].
  - split; [intros [= ->]; by left|].
    intros [[= ->]|Hin]; [done|].
    destruct Hk'. apply (in_map fst) in Hin. by apply list_elem_of_In.
  - rewrite IH. split; [by right|]. intros [[= ? ?]|?]; done.
Qed.

Lemma lookup_field_Permutation k (m m' : list (string * json)) :
  NoDup (map fst m) -> m ≡ₚ m' -> lookup_field k m = lookup_field k m'.
Proof.
  intros Hm Hperm.
  assert (Hm' : NoDup (map fst m')) by (by rewrite <- Hperm).
  destruct (lookup_field k m) as [v|] eqn:Hl.
  - symmetry. apply lookup_field_elem; [done|].
    apply list_elem_of_In. rewrite <- Hperm. apply list_elem_of_In.
    by apply lookup_field_elem.
  - destruct (lookup_field k m') as [v|] eqn:Hl'; [|done].
    apply lookup_field_elem in Hl'; [|done].
    apply list_elem_of_In in Hl'. rewrite <- Hperm in Hl'. apply list_elem_of_In in Hl'.
    apply lookup_field_elem in Hl'; [|done]. congruence.
Qed.

(** X15.  Go visits the aggregations of a response in no fixed order; the
    metrics the walk appends for two orders are the same up to their
    order. *)
Theorem aggregation_order_is_immaterial (queryConfig : QueryConfig) (timestamp : Z)
    (base : string) (aggregations aggregations' : list (string * json))
    (sm : ScopeMetrics)
    (Hsame : aggregations ≡ₚ aggregations') :
  processAggregations queryConfig timestamp base aggregations sm
  ≡ₚ processAggregations queryConfig timestamp base aggregations' sm.
Proof.
  rewrite !processAggregations_emits. f_equiv.
  by apply Permutation_flat_map.
Qed.

Lemma aggregation_order_swapped :
  let first := ("errors", JObj [("value", JNum (of_int 3))]) in
  let second := ("slow", JObj [("doc_count", JNum (of_int 8))]) in
  [first; second] ≡ₚ [second; first]
  /\ processAggregations errorCount 7 "p" [first; second] []
     ≡ₚ processAggregations errorCount 7 "p" [second; first] [].
Proof.
  intros first second.
  assert (Hswap : [first; second] ≡ₚ [second; first]) by apply perm_swap.
  split; [exact Hswap|].
  exact (aggregation_order_is_immaterial errorCount 7 "p" _ _ [] Hswap).
Defined.

(** X16.  The same holds of the fields of a bucket, whose keys are
    distinct: in whatever order they are visited, the bucket gets the same
    key and adds the same metrics up to their order. *)
Theorem bucket_field_order_is_immaterial (queryConfig : QueryConfig) (timestamp : Z)
    (base aggName : string) (i : nat) (bucketMap bucketMap' : list (string * json))
    (sm : ScopeMetrics)
    (Hkeys : NoDup (map fst bucketMap))
    (Hsame : bucketMap ≡ₚ bucketMap') :
  bucketKey i bucketMap' = bucketKey i bucketMap
  /\ processBucket queryConfig timestamp (processAggregation queryConfig timestamp)
       base aggName i (JObj bucketMap) sm
     ≡ₚ processBucket queryConfig timestamp (processAggregation queryConfig timestamp)
          base aggName i (JObj bucketMap') sm.
Proof.
  assert (Hkey : bucketKey i bucketMap' = bucketKey i bucketMap).
  { unfold bucketKey, field_string, field_float64.
    by rewrite (lookup_field_Permutation "key" _ _ Hkeys Hsame). }
  split; [exact Hkey|].
  rewrite !processBucket_emits. unfold field_float64. rewrite Hkey.
  rewrite (lookup_field_Permutation "doc_count" _ _ Hkeys Hsame).
  do 2 f_equiv. by apply Permutation_flat_map.
Qed.

Lemma bucket_fields_reordered :
  let bucket := [("avg_latency", JObj [("value", JNum (of_dyadic 241 (-1)))]);
                 ("key", JStr "ERROR");
                 ("doc_count", JNum (of_int 10))] in
  NoDup (map fst levelsBucket)
  /\ levelsBucket ≡ₚ bucket
  /\ bucketKey 0 bucket = "ERROR"
  /\ processBucket errorCount 7 (processAggregation errorCount 7) "p" "levels" 0
       (JObj levelsBucket) []
     ≡ₚ processBucket errorCount 7 (processAggregation errorCount 7) "p" "levels" 0
          (JObj bucket) [].
Proof.
  intros bucket.
  assert (Hkeys : NoDup (map fst levelsBucket)).
  { apply (bool_decide_unpack _). by vm_compute. }
  assert (Hsame : levelsBucket ≡ₚ bucket).
  { symmetry. apply (Permutation_cons_append [_; _]). }
  split; [exact Hkeys|]. split; [exact Hsame|].
  exact (bucket_field_order_is_immaterial errorCount 7 "p" "levels" 0 _ _ [] Hkeys Hsame).
Defined.

(** ** The scrape cycle, further *)

(** X17.  [scrape] takes the timestamp from one reading of the clock,
    before the first query; every metric of the batch carries that reading
    as its timestamp, a number of nanoseconds below 2^64, however long the
    queries took. *)
Theorem scrape_batch_shares_one_timestamp {W : Type} (E : Env W) (config : Config)
    (s : World W) :
  let now := NewTimestampFromTime (time_Now E (ext s)).1 in
  0 <= now < 2 ^ 64
  /\ Forall (fun m => dp_Timestamp m = now) (scope_Metrics (scrape E config s).1.1).
Proof.
  intros now. split; [apply Z.mod_pos_bound; lia|].
  unfold scrape, bind, outside, ret. subst now.
  destruct (time_Now E (ext s)) as [t w]. cbn [fst snd].
  rewrite scrapeQueries_attempts. cbn [fst snd scope_Metrics app].
  apply List.Forall_flat_map, List.Forall_forall. intros [queryConfig [resp|e]] _;
    unfold contribution; cbn [fst snd]; [|constructor].
  rewrite recordResponse_emits. cbn zeta. apply Forall_app_2.
  - by repeat constructor.
  - apply List.Forall_flat_map, List.Forall_forall. intros [k v] _.
    by apply processAggregation_Forall.
Qed.

(** X18.  The batch [scrape] returns holds at least five metrics for every
    query that executed.  If every query failed the batch is returned all
    the same, with no metric in it; and with no query configured [scrape]
    returns the empty batch after reading the clock, without sending
    anything. *)
Theorem scrape_batch_size {W : Type} (E : Env W) (config : Config) (s : World W) :
  let met := (attempts E config (Queries config) (outside (time_Now E) s).2).1 in
  let batch := scope_Metrics (scrape E config s).1.1 in
  let executed := fun qa : QueryConfig * result SearchResponse =>
                    match qa.2 with Ok _ => true | Err _ => false end in
  (5 * length (List.filter executed met) <= length batch)%nat
  /\ (Forall (fun qa => executed qa = false) met -> batch = [])
  /\ (Queries config = [] ->
      scrape E config s =
        (({| resource_Attributes :=
               PutStr "opensearch.mode" (Mode config)
                 (PutStr "opensearch.index_pattern" (IndexPattern config)
                    (PutStr "opensearch.endpoint" (GetEndpoint config)
                       (PutStr "receiver" typeStr ∅)));
             scope_Name := typeStr;
             scope_Metrics := [] |}, None),
         (outside (time_Now E) s).2)).
Proof.
  intros met batch executed.
  assert (Hbatch : batch = flat_map
                             (contribution (NewTimestampFromTime (time_Now E (ext s)).1))
                             met).
  { unfold batch, met, scrape, bind, outside, ret.
    destruct (time_Now E (ext s)) as [t w]. cbn [fst snd].
    by rewrite scrapeQueries_attempts. }
  split; [|split].
  - rewrite Hbatch. clear Hbatch. induction met as [|[q [resp|e]] met IH];
      cbn [List.filter flat_map executed snd length]; [lia| |].
    + rewrite length_app. unfold contribution at 1. cbn [fst snd].
      rewrite recordResponse_emits. cbn zeta. rewrite length_app. cbn [length].
      unfold executed in *. lia.
    + unfold contribution at 1. cbn [fst snd app]. exact IH.
  - intros Hall. rewrite Hbatch. clear Hbatch.
    induction Hall as [|[q [resp|e]] met Hq _ IH]; [done|done|].
    cbn [flat_map]. unfold contribution at 1. cbn [fst snd app]. exact IH.
  - intros Hnone. unfold scrape, bind, ret. rewrite Hnone. cbn [scrapeQueries]. unfold ret.
    by destruct (outside (time_Now E) s).
Qed.

(** Every computation of the receiver keeps the state it runs in. *)
Section Keeps.
Context {W : Type}.

Lemma extends_refl (s : World W) : extends s s.
Proof. split; reflexivity. Qed.

Lemma extends_trans (s1 s2 s3 : World W) : extends s1 s2 -> extends s2 s3 -> extends s1 s3.
Proof. intros [? ?] [? ?]. split; etrans; eauto. Qed.

Lemma keeps_ret {A} (a : A) : keeps (W := W) (ret a).
Proof. intros s. apply extends_refl. Qed.

Lemma keeps_bind {A B} (m : IO W A) (k : A -> IO W B) :
  keeps m -> (forall a, keeps (k a)) -> keeps (bind m k).
Proof.
  intros Hm Hk s. unfold bind. specialize (Hm s).
  destruct (m s) as [a s1]. eapply extends_trans; [exact Hm|apply Hk].
Qed.

Lemma keeps_logf lvl msg fs : keeps (W := W) (logf lvl msg fs).
Proof. intros s. split; [reflexivity|]. by apply prefix_app_r. Qed.

Lemma keeps_new_map o : keeps (W := W) (new_map o).
Proof.
  intros s. split; [|reflexivity]. cbn.
  apply insert_subseteq, not_elem_of_dom, is_fresh.
Qed.

Lemma keeps_outside {A} (f : W -> A * W) : keeps (outside f).
Proof. intros s. unfold outside. destruct (f (ext s)). split; reflexivity. Qed.

Context (E : Env W) (config : Config).

Lemma keeps_addTimeRangeFilter query : keeps (addTimeRangeFilter E config query).
Proof.
  unfold addTimeRangeFilter.
  repeat (apply keeps_bind; [first [apply keeps_outside|apply keeps_new_map]|intros ?]).
  apply keeps_ret.
Qed.

Lemma keeps_buildRequest query : keeps (buildRequest E config query).
Proof.
  unfold buildRequest. apply keeps_bind; [apply keeps_addTimeRangeFilter|].
  intros wrapped s.
  destruct (json_Marshal E (heap s) _); [|apply extends_refl].
  revert s. apply keeps_bind; [apply keeps_logf|]. intros _.
  destruct (http_NewRequest E "POST" _); [apply keeps_ret|].
  destruct (UsesBasicAuth config);
    (apply keeps_bind; [apply keeps_logf|intros _; apply keeps_ret]).
Qed.

Lemma keeps_readResponse query resp : keeps (readResponse E query resp).
Proof.
  unfold readResponse. destruct (ReadAll resp) as [body [e|]]; [apply keeps_ret|].
  destruct (negb _); [apply keeps_ret|].
  destruct (json_Unmarshal E body); [|apply keeps_ret].
  apply keeps_bind; [apply keeps_logf|intros _; apply keeps_ret].
Qed.

Lemma keeps_ExecuteQuery query : keeps (ExecuteQuery E config query).
Proof.
  unfold ExecuteQuery. apply keeps_bind; [apply keeps_buildRequest|].
  intros [req|e]; [|apply keeps_ret].
  apply keeps_bind; [apply keeps_outside|].
  intros [resp|e]; [apply keeps_readResponse|apply keeps_ret].
Qed.

Lemma keeps_executeAndRecordQuery query sm now :
  keeps (executeAndRecordQuery E config query sm now).
Proof.
  unfold executeAndRecordQuery. apply keeps_bind; [apply keeps_ExecuteQuery|].
  intros [resp|e]; [|apply keeps_ret].
  apply keeps_bind; [apply keeps_logf|intros _; apply keeps_ret].
Qed.

Lemma keeps_scrapeQueries now queries : forall sm, keeps (scrapeQueries E config now queries sm).
Proof.
  induction queries as [|q queries IH]; intros sm; cbn [scrapeQueries]; [apply keeps_ret|].
  apply keeps_bind; [apply keeps_executeAndRecordQuery|].
  intros [[e|] sm']; [|apply IH].
  apply keeps_bind; [apply keeps_logf|intros _; apply IH].
Qed.

Lemma keeps_scrape : keeps (scrape E config).
Proof.
  unfold scrape. apply keeps_bind; [apply keeps_outside|]. intros t.
  apply keeps_bind; [apply keeps_scrapeQueries|]. intros sm. apply keeps_ret.
Qed.

Variable ConsumeMetrics : Metrics -> W -> option error * W.

Lemma keeps_collect : keeps (collect E config ConsumeMetrics).
Proof.
  unfold collect. apply keeps_bind; [apply keeps_scrape|].
  intros [metrics [e|]]; [apply keeps_logf|].
  apply keeps_bind; [apply keeps_outside|].
  intros [e|]; [apply keeps_logf|apply keeps_ret].
Qed.

Lemma extends_cycles n (s : World W) :
  extends s (Nat.iter n (cycle E config ConsumeMetrics) s).
Proof.
  induction n as [|n IH]; [apply extends_refl|].
  cbn [Nat.iter]. eapply extends_trans; [exact IH|apply keeps_collect].
Qed.

Lemma map_len_extends (h h' : store) r :
  h ⊆ h' -> map_len h r <> 0%nat -> map_len h' r = map_len h r.
Proof.
  intros Hsub. destruct r as [l|]; [|done]. cbn.
  destruct (h !! l) as [o|] eqn:Hl; [|done].
  by rewrite (lookup_weaken _ _ _ _ Hl Hsub).
Qed.

End Keeps.

(** X19.  Collection cycles only add to the store and to the log: after
    any number of cycles every map object that existed before, the bodies
    of the configured queries among them, is as it was, and the log begins
    with the old log.  So a configuration [Validate] accepted before the
    cycles is accepted after them, with the same result. *)
Theorem cycles_keep_store_and_log {W : Type} (E : Env W) (config : Config)
    (ConsumeMetrics : Metrics -> W -> option error * W) (n : nat) (s : World W) :
  let s' := Nat.iter n (cycle E config ConsumeMetrics) s in
  (forall l o, heap s !! l = Some o -> heap s' !! l = Some o)
  /\ (exists entries, log s' = (log s ++ entries)%list)
  /\ (forall cfg, (Validate (heap s) cfg).2 = None ->
                  Validate (heap s') cfg = Validate (heap s) cfg).
Proof.
  intros s'. destruct (extends_cycles E config ConsumeMetrics n s) as [Hheap Hlog].
  fold s' in Hheap, Hlog. split; [|split].
  - intros l o Hl. by apply (lookup_weaken _ _ _ _ Hl Hheap).
  - exact Hlog.
  - intros cfg Hok.
    assert (Hok' : (Validate (heap s') cfg).2 = None).
    { rewrite <- Hok. apply Validate_error_store.
      pose proof (Validate_queries_accepted _ _ Hok) as Hall. rewrite Hall.
      apply validateQueries_accepts. apply validateQueries_accepts in Hall.
      eapply Forall_impl; [exact Hall|].
      intros q (Hn & Hq & Hl). repeat split; try done.
      by rewrite (map_len_extends _ _ _ Hheap Hl). }
    by rewrite (Validate_result (heap s')), (Validate_result (heap s)), Hok, Hok'.
Qed.

(** X20.  [scrape] never returns an error, so [collect] never logs "Failed
    to scrape metrics": it hands the batch [scrape] returned to the consumer,
    once, and an error of the consumer is logged as "Failed to consume
    metrics" and goes no further. *)
Theorem collect_hands_the_batch_to_the_consumer {W : Type} (E : Env W) (config : Config)
    (ConsumeMetrics : Metrics -> W -> option error * W) (s : World W) :
  let scraped := scrape E config s in
  let consumed := ConsumeMetrics scraped.1.1 (ext scraped.2) in
  scraped.1.2 = None
  /\ collect E config ConsumeMetrics s =
     (tt, {| heap := heap scraped.2;
             log := (log scraped.2
                     ++ match consumed.1 with
                        | Some e => [{| level := "error";
                                        message := "Failed to consume metrics";
                                        fields := [("error", e)] |}]
                        | None => []
                        end)%list;
             ext := consumed.2 |}).
Proof.
  intros scraped consumed.
  assert (Hnil : scraped.1.2 = None).
  { unfold scraped, scrape, bind, ret.
    destruct (outside (time_Now E) s) as [t s0].
    by destruct (scrapeQueries E config _ (Queries config) [] s0). }
  split; [exact Hnil|].
  unfold collect, bind. fold scraped. subst consumed.
  destruct scraped as [[metrics err] s1]. cbn [fst snd] in *. subst err.
  unfold outside. destruct (ConsumeMetrics metrics (ext s1)) as [[e|] w]; cbn [fst snd].
  - reflexivity.
  - unfold ret. by rewrite app_nil_r.
Qed.

(** ** The loop and the life cycle of the receiver *)

(** The invariant of the channels along an execution. *)
Section LoopMore.
Context {St : Type} (collect : St -> St) (config : Config) (a : St).

Lemma ticksFired_snoc tr ev :
  ticksFired (tr ++ [ev]) =
  (ticksFired tr + match ev with TickerFires => 1 | _ => 0 end)%nat.
Proof. induction tr as [|[] tr IH]; simpl; rewrite ?IH; by destruct ev. Qed.

Lemma cancelled_snoc tr ev :
  cancelled (tr ++ [ev]) = cancelled tr || match ev with Cancel => true | _ => false end.
Proof. induction tr as [|[] tr IH]; simpl; rewrite ?IH; by destruct ev. Qed.

Lemma channels_start : channels config [] (collectionLoop collect config a).
Proof.
  unfold channels, collectionLoop, enterLoop.
  destruct (0 <? InitialDelay config); [by cbn|].
  by destruct (CollectionInterval config <=? 0); cbn; repeat split; try lia.
Qed.

Lemma channels_step tr s ev s' :
  reached collect config a tr s -> channels config tr s ->
  step collect config s ev = Some s' -> channels config (tr ++ [ev]) s'.
Proof.
  unfold channels, reached.
  rewrite ticksReceived_snoc, ticksFired_snoc, cancelled_snoc, afterReceived_snoc.
  intros [_ Hpoint] (Hticks & Hdone & Hfired) Hstep.
  assert (Hkeep : forall b,
            ticksFired tr <> 0%nat ->
            0 < CollectionInterval config
            /\ (InitialDelay config <=? 0) || (afterReceived tr || b) = true).
  { intros b Hpos. destruct (Hfired Hpos) as [? Hpast]. split; [done|].
    destruct (InitialDelay config <=? 0); [done|]. cbn in *. by rewrite Hpast. }
  destruct ev, s as [[] d ar tk ap]; cbn in *; try discriminate;
    repeat match goal with
           | H : (if ?b then _ else _) = Some _ |- _ => destruct b eqn:?; [|discriminate]
           end;
    try (injection Hstep as <-); cbn in *; subst;
    rewrite ?Nat.add_0_r in *;
    (split; [|split];
     [try lia
     |try done; try (by rewrite orb_false_r); try (by rewrite orb_true_r)
     |intros Hpos;
      first [by apply Hkeep
            |destruct Hpoint as (? & Hp & _); split; [done|by rewrite orb_false_r]]]).
  - unfold enterLoop. cbn. destruct (CollectionInterval config <=? 0); cbn; lia.
  - unfold enterLoop. cbn. destruct (CollectionInterval config <=? 0); cbn;
      by rewrite orb_false_r.
Qed.

Lemma channels_run tr s :
  run collect config (collectionLoop collect config a) tr = Some s -> channels config tr s.
Proof.
  revert s. induction tr as [|ev tr IH] using rev_ind; intros s.
  - intros [= <-]. apply channels_start.
  - rewrite run_snoc.
    destruct (run collect config (collectionLoop collect config a) tr) as [s0|] eqn:Hrun;
      [|done].
    intros Hstep. eapply channels_step; [by apply reached_run|by apply IH|exact Hstep].
Qed.

End LoopMore.

Section LoopTheorems.
Context {St : Type} (collect : St -> St) (config : Config) (a : St).

(** The cancellation is never taken back. *)
Lemma done_stable (tr : list Event) (s s' : @Sys St) :
  done s = true -> run collect config s tr = Some s' -> done s' = true.
Proof.
  revert s. induction tr as [|ev tr IH]; intros s Hdone.
  - by intros [= <-].
  - cbn [run]. destruct (step collect config s ev) as [s1|] eqn:Hstep; [|done].
    apply IH.
    destruct ev, s as [[] d ar tk ap]; cbn in *; try discriminate;
      repeat match goal with
             | H : (if ?b then _ else _) = Some _ |- _ =>
                 destruct b eqn:?; [|discriminate]
             end;
      try (injection Hstep as <-); try done.
    unfold enterLoop. cbn. by destruct (CollectionInterval config <=? 0).
Qed.

(** X21.  In every execution of the collection loop the ticks received
    are at most the ticks the ticker has fired, so the cycles started are at
    most one more than the ticks fired.  The ticker fires only for a
    positive interval and once the initial delay is behind; and as long as
    a positive initial delay has not been received, no cycle has run. *)
Theorem cycles_bounded_by_ticks_fired (tr : list Event) (s : @Sys St)
    (Hrun : run collect config (collectionLoop collect config a) tr = Some s) :
  (ticksReceived tr <= ticksFired tr)%nat
  /\ (cyclesStarted config tr <= 1 + ticksFired tr)%nat
  /\ (ticksFired tr <> 0%nat ->
      0 < CollectionInterval config
      /\ (InitialDelay config <= 0 \/ afterReceived tr = true))
  /\ (0 < InitialDelay config -> afterReceived tr = false -> app s = a).
Proof.
  pose proof (channels_run collect config a tr s Hrun) as (Hticks & _ & Hfired).
  pose proof (reached_run collect config a tr s Hrun) as [Happ _].
  assert (Hle : (ticksReceived tr <= ticksFired tr)%nat) by (destruct (tickReady s); lia).
  split; [exact Hle|]. split; [|split].
  - unfold cyclesStarted. destruct (CollectionInterval config <=? 0); [lia|].
    destruct (_ || _); lia.
  - intros Hpos. destruct (Hfired Hpos) as [Hi Hpast]. split; [done|].
    destruct (Z.leb_spec (InitialDelay config) 0); [by left|by right].
  - intros Hdelay Hafter. rewrite Happ. unfold cyclesStarted.
    destruct (CollectionInterval config <=? 0); [done|].
    rewrite Hafter. destruct (Z.leb_spec (InitialDelay config) 0); [lia|]. cbn.
    destruct (Nat.eq_dec (ticksFired tr) 0%nat) as [Hz|Hnz].
    + assert (ticksReceived tr = 0%nat) as -> by lia. done.
    + destruct (Hfired Hnz) as [_ Hpast]. rewrite Hafter in Hpast.
      by destruct (Z.leb_spec (InitialDelay config) 0); [lia|].
Qed.

(** X22.  A cancellation is never lost: once the context has been
    cancelled it stays cancelled whatever happens next, and a loop that
    waits in either [select] can take the cancellation at once and return
    without another cycle. *)
Theorem cancelled_loop_can_return (tr : list Event) (s : @Sys St)
    (Hrun : run collect config (collectionLoop collect config a) tr = Some s)
    (Hcancelled : cancelled tr = true) :
  done s = true
  /\ (point s = AtDelaySelect \/ point s = AtTickSelect ->
      exists s', step collect config s RecvDone = Some s'
                 /\ point s' = Returned /\ app s' = app s)
  /\ (forall tr' s', run collect config s tr' = Some s' -> done s' = true).
Proof.
  pose proof (channels_run collect config a tr s Hrun) as (_ & Hdone & _).
  rewrite Hcancelled in Hdone. split; [exact Hdone|]. split.
  - intros Hpoint. destruct s as [pt d ar tk ap]. cbn in *. subst d.
    destruct Hpoint as [-> | ->]; eexists; by repeat split.
  - intros tr' s'. by apply done_stable.
Qed.
End LoopTheorems.

Lemma cycles_bounded_by_ticks_fired_sample :
  let tr := [DelayElapsed; RecvAfter; TickerFires; TickerFires; RecvTick] in
  exists s,
    run S createDefaultConfig (collectionLoop S createDefaultConfig 0%nat) tr = Some s
    /\ ticksFired tr = 2%nat
    /\ (cyclesStarted createDefaultConfig tr <= 1 + ticksFired tr)%nat
    /\ app s = 2%nat.
Proof.
  intros tr. eexists. split; [reflexivity|]. split; [reflexivity|].
  split; [|reflexivity].
  exact (proj1 (proj2 (cycles_bounded_by_ticks_fired S createDefaultConfig 0%nat tr _
                         eq_refl))).
Defined.

Lemma cancelled_loop_can_return_sample :
  let tr := [DelayElapsed; RecvAfter; TickerFires; Cancel] in
  exists s,
    run S createDefaultConfig (collectionLoop S createDefaultConfig 0%nat) tr = Some s
    /\ cancelled tr = true
    /\ tickReady s = true
    /\ done s = true.
Proof.
  intros tr. eexists. split; [reflexivity|]. split; [reflexivity|].
  split; [reflexivity|].
  exact (proj1 (cancelled_loop_can_return S createDefaultConfig 0%nat tr _
                  eq_refl eq_refl)).
Defined.

Section LifecycleFacts.
Context {W : Type} (E : Env W) (config : Config).
Variable ConsumeMetrics : Metrics -> W -> option error * W.

(** X23.  [Start] never returns an error, whatever the ping of the
    scraper's [start] meets: a failed ping leaves one warning "Failed to
    ping OpenSearch on startup" at the end of the log, and the collection
    loop is spawned on the state the ping left. *)
Theorem Start_survives_a_failed_ping (s : World W) :
  let announced := (logf "info" "Starting OpenSearch Query Receiver" [] s).2 in
  let started := start E config announced in
  let pinged :=
    Ping E config
      (logf "info" "Starting OpenSearch Query Receiver"
         [("mode", Mode config); ("endpoint", GetEndpoint config);
          ("index_pattern", IndexPattern config);
          ("num_queries", Fmt.itoa (Z.of_nat (length (Queries config))))]
         announced).2 in
  started.1 = None
  /\ Start E config ConsumeMetrics s =
     (None, Started (collectionLoop (cycle E config ConsumeMetrics) config started.2))
  /\ match pinged.1 with
     | Some e =>
         started.2 =
         {| heap := heap pinged.2;
            log := (log pinged.2
                    ++ [{| level := "warn";
                           message := "Failed to ping OpenSearch on startup";
                           fields := [("error", e)] |}])%list;
            ext := ext pinged.2 |}
     | None => started.2 = pinged.2
     end.
Proof.
  intros announced started pinged.
  assert (Hstart : started = (None, started.2)
                   /\ match pinged.1 with
                      | Some e =>
                          started.2 =
                          {| heap := heap pinged.2;
                             log := (log pinged.2
                                     ++ [{| level := "warn";
                                            message := "Failed to ping OpenSearch on startup";
                                            fields := [("error", e)] |}])%list;
                             ext := ext pinged.2 |}
                      | None => started.2 = pinged.2
                      end).
  { unfold started, pinged, start, bind.
    change (logf "info" "Starting OpenSearch Query Receiver"
              [("mode", Mode config); ("endpoint", GetEndpoint config);
               ("index_pattern", IndexPattern config);
               ("num_queries", Fmt.itoa (Z.of_nat (length (Queries config))))]
              announced)
      with (tt, (logf "info" "Starting OpenSearch Query Receiver"
                   [("mode", Mode config); ("endpoint", GetEndpoint config);
                    ("index_pattern", IndexPattern config);
                    ("num_queries", Fmt.itoa (Z.of_nat (length (Queries config))))]
                   announced).2).
    cbv beta iota.
    destruct (Ping E config _) as [[e|] s1]; by cbn. }
  destruct Hstart as [Hnone Hlog].
  split; [by rewrite Hnone|]. split; [|exact Hlog].
  unfold Start, bind. fold announced.
  change ((logf "info" "Starting OpenSearch Query Receiver" [] s)) with (tt, announced).
  cbn beta iota. fold started. by rewrite Hnone.
Qed.

(** X24.  [Shutdown] never returns an error.  On a receiver that was never
    started it only writes its two log entries ([r.cancel] is nil and is
    not called).  On a started one it cancels the context of the loop and
    changes nothing else of the loop's state; a loop that waits in a
    [select] can then return. *)
Theorem Shutdown_cancels_the_loop (r : metricsReceiver (W := W)) :
  let entry := {| level := "info"; message := "Shutting down OpenSearch Query Receiver";
                  fields := [] |} in
  (Shutdown r).1 = None
  /\ match r, (Shutdown r).2 with
     | Idle s, Idle s' =>
         heap s' = heap s /\ ext s' = ext s /\ log s' = (log s ++ [entry; entry])%list
     | Started sys, Started sys' =>
         done sys' = true
         /\ point sys' = point sys
         /\ afterReady sys' = afterReady sys /\ tickReady sys' = tickReady sys
         /\ heap (app sys') = heap (app sys) /\ ext (app sys') = ext (app sys)
         /\ log (app sys') = (log (app sys) ++ [entry; entry])%list
         /\ (point sys = AtDelaySelect \/ point sys = AtTickSelect ->
             exists sys'',
               step (cycle E config ConsumeMetrics) config sys' RecvDone = Some sys''
               /\ point sys'' = Returned /\ app sys'' = app sys')
     | _, _ => False
     end.
Proof.
  intros entry. destruct r as [s|sys]; cbn.
  - repeat split. by rewrite <- app_assoc.
  - repeat split; [by rewrite <- app_assoc|].
    destruct sys as [pt d ar tk ap]. cbn. intros [-> | ->]; eexists; by repeat split.
Qed.

End LifecycleFacts.


(** ** The substring test of the configuration tests *)

Lemma length_append (a b : string) :
  String.length (a ++ b) = (String.length a + String.length b)%nat.
Proof. induction a as [|x a IH]; [done|]. rewrite append_cons. cbn. by rewrite IH. Qed.

Lemma append_nil_r (a : string) : a ++ "" = a.
Proof. induction a as [|x a IH]; [done|]. rewrite append_cons. by rewrite IH. Qed.

Lemma substring_whole (sub post : string) :
  String.substring 0 (String.length sub) (sub ++ post) = sub.
Proof.
  induction sub as [|x sub IH]; [by destruct post|].
  rewrite append_cons. cbn. by rewrite IH.
Qed.

Lemma substring_found (pre sub post : string) :
  String.substring (String.length pre) (String.length sub) (pre ++ sub ++ post) = sub.
Proof.
  induction pre as [|x pre IH]; [exact (substring_whole sub post)|].
  rewrite append_cons. exact IH.
Qed.

Lemma substring_split (s : string) :
  forall i n, (i + n <= String.length s)%nat ->
    exists pre post,
      s = pre ++ String.substring i n s ++ post /\ String.length pre = i.
Proof.
  induction s as [|c s IH]; intros i n Hle.
  - cbn in Hle. assert (i = 0%nat) as -> by lia. assert (n = 0%nat) as -> by lia.
    by exists "", "".
  - destruct i as [|i].
    + destruct n as [|n]; [by exists "", (String c s)|].
      cbn in Hle. destruct (IH 0%nat n ltac:(lia)) as (pre & post & Hs & Hpre).
      destruct pre; [|done]. exists "", post. split; [|done].
      cbn [String.substring]. change ("" ++ ?x) with x in *.
      rewrite append_cons. by f_equal.
    + cbn in Hle. destruct (IH i n ltac:(lia)) as (pre & post & Hs & Hpre).
      exists (String c pre), post. cbn [String.substring String.length].
      rewrite append_cons. split; [by f_equal|by f_equal].
Qed.

Lemma occurs_at_decomposition s substr :
  (exists j, ConfigTest.occurs_at s substr j) <-> exists pre post, s = pre ++ substr ++ post.
Proof.
  unfold ConfigTest.occurs_at, ConfigTest.len. split.
  - intros (j & Hj & Hsub).
    destruct (substring_split s (Z.to_nat j) (String.length substr) ltac:(lia))
      as (pre & post & Hs & _).
    rewrite Hsub in Hs. by exists pre, post.
  - intros (pre & post & ->). exists (Z.of_nat (String.length pre)). split.
    + rewrite !length_append. lia.
    + rewrite Nat2Z.id. apply substring_found.
Qed.

Lemma containsLoop_scans s substr fuel :
  forall i, 0 <= i ->
    ConfigTest.len s - ConfigTest.len substr - i + 2 <= Z.of_nat fuel ->
    (1 <= fuel)%nat ->
    exists b, ConfigTest.containsLoop s substr i fuel = Some b
              /\ (b = true <-> exists j, i <= j /\ ConfigTest.occurs_at s substr j).
Proof.
  induction fuel as [|fuel IH]; intros i Hi Hfuel Hone; [lia|].
  cbn [ConfigTest.containsLoop].
  destruct (Z.leb_spec i (ConfigTest.len s - ConfigTest.len substr)) as [Hin|Hout].
  - unfold ConfigTest.slice.
    assert (Hlen : 0 <= ConfigTest.len substr) by (unfold ConfigTest.len; lia).
    destruct (Z.leb_spec 0 i); [|lia].
    destruct (Z.leb_spec i (i + ConfigTest.len substr)); [|lia].
    destruct (Z.leb_spec (i + ConfigTest.len substr) (ConfigTest.len s)); [|lia].
    cbn [andb].
    replace (Z.to_nat (i + ConfigTest.len substr - i)) with (String.length substr)
      by (unfold ConfigTest.len; lia).
    destruct (String.eqb_spec (String.substring (Z.to_nat i) (String.length substr) s)
                substr) as [Heq|Hne].
    + exists true. split; [done|]. split; [|done]. intros _. exists i.
      split; [lia|]. by split.
    + destruct (IH (i + 1) ltac:(lia) ltac:(lia) ltac:(lia)) as (b & Hb & Hiff).
      exists b. split; [exact Hb|]. rewrite Hiff. split.
      * intros (j & Hj & Hocc). exists j. split; [lia|done].
      * intros (j & Hj & Hocc). exists j. split; [|done].
        destruct (Z.eq_dec i j) as [<-|]; [|lia]. by destruct Hocc as [_ ?].
  - exists false. split; [done|]. split; [done|].
    intros (j & Hj & [Hrange _]). lia.
Qed.

(** X25.  The helper [contains] of the configuration tests never indexes
    its argument out of range, always finishes, and returns true exactly
    when [substr] occurs in [s]: when [s] is some prefix, then [substr],
    then some suffix. *)
Theorem contains_finds_exactly_the_substrings (s substr : string) :
  exists b,
    ConfigTest.contains s substr = Some b
    /\ (b = true <-> exists pre post, s = pre ++ substr ++ post).
Proof.
  unfold ConfigTest.contains.
  destruct (Z.ltb_spec (ConfigTest.len s) (ConfigTest.len substr)) as [Hshort|Hlong].
  { exists false. split; [done|]. split; [done|]. intros (pre & post & ->).
    unfold ConfigTest.len in Hshort. rewrite !length_append in Hshort. lia. }
  destruct (String.eqb_spec s substr) as [->|Hne].
  { exists true. split; [done|]. split; [|done]. intros _. exists "", "".
    by rewrite append_nil_r. }
  destruct (Z.eqb_spec (ConfigTest.len substr) 0) as [Hempty|Hnonempty].
  { exists true. split; [done|]. split; [|done]. intros _. exists "", s.
    destruct substr; [done|]. by cbn in Hempty. }
  assert (Hpos : 0 < ConfigTest.len substr) by (unfold ConfigTest.len in *; lia).
  destruct (Z.ltb_spec 0 (ConfigTest.len s)); [|lia].
  destruct (Z.ltb_spec 0 (ConfigTest.len substr)); [|lia].
  cbn [andb]. unfold ConfigTest.containsHelper.
  destruct (containsLoop_scans s substr (String.length s + 2) 0 ltac:(lia)
              ltac:(unfold ConfigTest.len in *; lia) ltac:(lia)) as (b & Hb & Hiff).
  exists b. split; [exact Hb|]. rewrite Hiff, <- occurs_at_decomposition.
  split; intros (j & Hj); exists j; [apply Hj|split; [apply Hj|done]].
Qed.
